(** * Tabular result interpretation in [src/App.js]

    A shallow embedding of the helpers [toNumber], [fullTo3], [monthIndex],
    [looksLikeTimeName], [isTimeLikeAxis], [nameMatches], [resolveAxes] and
    [pivotData], followed by the properties established about them; then
    of [formatNumber], the chart renderer [renderChart], the updates of the
    query history and of the conversation, and of [exportToCSV] and the
    index updates of the earlier version of the component.

    Conventions of the embedding.
    - A JS string is a [string]: a sequence of code units, here the 8-bit
      ones (Latin-1), which covers every character class the source tests.
    - A JS number is an IEEE 754 binary64 value, [spec_float] at precision
      53 and maximal exponent 1024; it has one NaN and two zeros.
    - A record (a row of the result set) is the list of its entries in the
      order [Object.keys] enumerates them; reading a key it does not have
      gives [undefined]. Every row is an object.
    - [null] and [undefined] column keys are both [None]: the source only
      tests them for truthiness and for equality with a string.
    - Built-ins of the host are parameters: [Number.prototype.toString],
      [String.prototype.localeCompare] and, for [formatNumber], the format
      of [Intl.NumberFormat]. *)

From Stdlib Require Import ZArith Ascii String List Bool Lia Sorting.Sorted
  Sorting.Permutation Floats.SpecFloat.
From stdpp Require Import base option gmap strings fin_maps.

Open Scope string_scope.
Open Scope Z_scope.

(** ** Host built-ins *)

Module Js.

(** *** Characters and strings *)

Definition code (c : ascii) : Z := Z.of_N (N_of_ascii c).

Definition in_range (lo hi : Z) (c : ascii) : bool :=
  (lo <=? code c) && (code c <=? hi).

(** [\d] *)
Definition is_digit (c : ascii) : bool := in_range 48 57 c.
Definition is_upper (c : ascii) : bool := in_range 65 90 c.
Definition is_lower (c : ascii) : bool := in_range 97 122 c.
(** [[A-Za-z]] *)
Definition is_letter (c : ascii) : bool := is_upper c || is_lower c.
(** [\s], and what [trim] removes: TAB, LF, VT, FF, CR, space, NBSP. *)
Definition is_space (c : ascii) : bool :=
  in_range 9 13 c || (code c =? 32) || (code c =? 160).

Definition ascii_of_code (z : Z) : ascii := ascii_of_N (Z.to_N z).

(** [toLowerCase] and the canonicalisation of the [i] flag, on the
    letters A-Z and a-z; other code units below 128 are left alone by
    both. *)
Definition lower (c : ascii) : ascii :=
  if is_upper c then ascii_of_code (code c + 32) else c.

Fixpoint toLowerCase (s : string) : string :=
  match s with
  | EmptyString => EmptyString
  | String c s' => String (lower c) (toLowerCase s')
  end.

Fixpoint str_filter (p : ascii -> bool) (s : string) : string :=
  match s with
  | EmptyString => EmptyString
  | String c s' => if p c then String c (str_filter p s') else str_filter p s'
  end.

Fixpoint str_all (p : ascii -> bool) (s : string) : bool :=
  match s with
  | EmptyString => true
  | String c s' => p c && str_all p s'
  end.

(** The longest prefix of [s] whose characters satisfy [p], and the rest. *)
Fixpoint span (p : ascii -> bool) (s : string) : string * string :=
  match s with
  | EmptyString => (EmptyString, EmptyString)
  | String c s' =>
      if p c then let '(a, b) := span p s' in (String c a, b)
      else (EmptyString, s)
  end.

Fixpoint drop_while (p : ascii -> bool) (s : string) : string :=
  match s with
  | EmptyString => EmptyString
  | String c s' => if p c then drop_while p s' else s
  end.

Fixpoint str_rev_onto (s acc : string) : string :=
  match s with
  | EmptyString => acc
  | String c s' => str_rev_onto s' (String c acc)
  end.

Definition str_rev (s : string) : string := str_rev_onto s EmptyString.

Definition trimStart (s : string) : string := drop_while is_space s.
Definition trimEnd (s : string) : string :=
  str_rev (drop_while is_space (str_rev s)).
(** [String.prototype.trim] *)
Definition trim (s : string) : string := trimEnd (trimStart s).

(** [s.slice(0, n)] *)
Fixpoint slice0 (n : nat) (s : string) : string :=
  match n, s with
  | S n', String c s' => String c (slice0 n' s')
  | _, _ => EmptyString
  end.

(** [parseInt(s, 10)] on a string of decimal digits. *)
Fixpoint digits_onto (acc : Z) (s : string) : Z :=
  match s with
  | EmptyString => acc
  | String c s' => digits_onto (acc * 10 + (code c - 48)) s'
  end.

Definition parseInt (s : string) : Z := digits_onto 0 s.

(** *** Numbers *)

Definition prec : Z := 53.
Definition emax : Z := 1024.

Abbreviation number := spec_float.

Definition NaN : number := S754_nan.
Definition pos_zero : number := S754_zero false.
Definition neg_zero : number := S754_zero true.

(** The number an integer literal denotes (the nearest binary64). *)
Definition num (z : Z) : number := binary_normalize prec emax z 0 false.

(** [Number.isFinite] on a number. *)
Definition isFinite (x : number) : bool :=
  match x with
  | S754_zero _ | S754_finite _ _ _ => true
  | S754_infinity _ | S754_nan => false
  end.

(** The binary64 nearest to [m / 10^k] (ties to even), negated when [neg]:
    the value of a decimal literal whose digits read [m], [k] of them after
    the point. The division is exact up to the final rounding. *)
Definition decimal (neg : bool) (m : Z) (k : nat) : number :=
  match m with
  | Zpos p =>
      SFdiv prec emax (S754_finite neg p 0)
            (S754_finite false (Z.to_pos (10 ^ Z.of_nat k)) 0)
  | _ => S754_zero neg
  end.

(** [Number(s)] for a string [s] over the characters [0-9], [.] and [-]
    (the ones [toNumber] leaves): the empty string is [+0]; an optional
    minus sign followed by [digits], [digits.], [digits.digits] or
    [.digits] is that decimal; anything else is [NaN]. *)
Definition Number_ (s : string) : number :=
  match s with
  | EmptyString => pos_zero
  | _ =>
      let '(neg, u) :=
        match s with
        | String "-"%char u => (true, u)
        | _ => (false, s)
        end in
      let '(ip, r) := span is_digit u in
      match r with
      | EmptyString =>
          if String.eqb ip "" then NaN else decimal neg (parseInt ip) 0
      | String "."%char f =>
          if str_all is_digit f && negb (String.eqb (ip ++ f) "")
          then decimal neg (parseInt (ip ++ f)) (String.length f)
          else NaN
      | _ => NaN
      end
  end.

(** [Math.ceil] *)
Definition Math_ceil (x : number) : number :=
  match x with
  | S754_finite s m e =>
      if 0 <=? e then x
      else
        let d := 2 ^ (- e) in
        let v := if s then - (Zpos m / d) else (Zpos m + d - 1) / d in
        if (v =? 0) then S754_zero s else num v
  | _ => x
  end.

(** [x >= y] on numbers. *)
Definition geq (x y : number) : bool := SFleb y x.

End Js.

Import Js.

(** ** Data model *)

(** A scalar of a record. [VUndef] is what reading an absent key gives. *)
Inductive value :=
  | VNum (x : number)
  | VStr (s : string)
  | VBool (b : bool)
  | VNull
  | VUndef.

(** A row of the result set, as [Object.keys] enumerates it. *)
Definition record := list (string * value).

Definition keys (r : record) : list string := map fst r.

(** [r[k]] *)
Fixpoint get (r : record) (k : string) : value :=
  match r with
  | [] => VUndef
  | (k', v) :: r' => if String.eqb k' k then v else get r' k
  end.

(** A column key held in a variable: a string, or [null]/[undefined]. *)
Definition key := option string.

Definition truthy (k : key) : bool :=
  match k with
  | Some s => negb (String.eqb s "")
  | None => false
  end.

(** [a || b] on keys. *)
Definition or_else (a b : key) : key := if truthy a then a else b.

(** [a !== b] on keys. *)
Definition key_neq (a b : key) : bool :=
  match a, b with
  | Some s, Some t => negb (String.eqb s t)
  | None, None => false
  | _, _ => true
  end.

(** [k || ''] *)
Definition or_empty (k : key) : string :=
  match k with
  | Some s => s
  | None => ""
  end.

(** [l[0]] *)
Definition first (l : list string) : key := List.hd_error l.

(** What [monthIndex] returns: an integer, or [Number.POSITIVE_INFINITY].
    The integers are at most [9999 * 12 + 98] in magnitude, far below
    [2^53], so the source's arithmetic on them is exact. *)
Inductive month_index :=
  | Finite (z : Z)
  | PosInfinity.

(** [Number.isFinite] on a month index. *)
Definition mi_finite (i : month_index) : bool :=
  match i with
  | Finite _ => true
  | PosInfinity => false
  end.

(** ** Helpers: numbers and time parsing *)

(** The three [replace] calls of [toNumber], in the order of the source:
    [/[^\d.,-]/g], [/\s+/g] and [/,/g], each replaced by the empty string. *)
Definition keep1 (c : ascii) : bool :=
  is_digit c || Ascii.eqb c "." || Ascii.eqb c "," || Ascii.eqb c "-".
Definition keep2 (c : ascii) : bool := negb (is_space c).
Definition keep3 (c : ascii) : bool := negb (Ascii.eqb c ",").

Definition cleaned (v : string) : string :=
  str_filter keep3 (str_filter keep2 (str_filter keep1 v)).

Definition toNumber (v : value) : number :=
  match v with
  | VNum x => x
  | VStr s =>
      let n := Number_ (cleaned s) in
      if isFinite n then n else NaN
  | _ => NaN
  end.

Definition MONTHS3 : list string :=
  ["Jan"; "Feb"; "Mar"; "Apr"; "May"; "Jun";
   "Jul"; "Aug"; "Sep"; "Oct"; "Nov"; "Dec"].

Definition MONTHS_FULL : list string :=
  ["January"; "February"; "March"; "April"; "May"; "June"; "July";
   "August"; "September"; "October"; "November"; "December"].

(** [l.findIndex(p)], [-1] when there is none. *)
Fixpoint findIndex_from (i : Z) (p : string -> bool) (l : list string) : Z :=
  match l with
  | [] => -1
  | x :: l' => if p x then i else findIndex_from (i + 1) p l'
  end.

Definition findIndex (p : string -> bool) (l : list string) : Z :=
  findIndex_from 0 p l.

(** [l.indexOf(s)] *)
Definition indexOf (l : list string) (s : string) : Z :=
  findIndex (String.eqb s) l.

Definition fullTo3 (m : string) : key :=
  let idx :=
    findIndex (fun x => String.eqb (toLowerCase x) (toLowerCase m))
              MONTHS_FULL in
  if 0 <=? idx then nth_error MONTHS3 (Z.to_nat idx) else None.

(** [\d{n}] up to the end of the string. *)
Definition digits (n : nat) (s : string) : bool :=
  Nat.eqb (String.length s) n && str_all is_digit s.

(** [\s+(\d{4})$]: the year captured. *)
Definition space_year (r : string) : option string :=
  let '(sp, y) := span is_space r in
  if negb (String.eqb sp "") && digits 4 y then Some y else None.

(** [/^([A-Za-z]{3})\s+(\d{4})$/]: the two groups. *)
Definition re_mon3 (t : string) : option (string * string) :=
  match t with
  | String a (String b (String c r)) =>
      if is_letter a && is_letter b && is_letter c then
        match space_year r with
        | Some y => Some (String a (String b (String c "")), y)
        | None => None
        end
      else None
  | _ => None
  end.

(** [/^([A-Za-z]+)\s+(\d{4})$/] *)
Definition re_word (t : string) : option (string * string) :=
  let '(w, r) := span is_letter t in
  if String.eqb w "" then None
  else match space_year r with
       | Some y => Some (w, y)
       | None => None
       end.

(** [^(\d{n})<sep>(\d{m})$] *)
Definition re_pair (n : nat) (sep : ascii) (m : nat) (t : string)
  : option (string * string) :=
  let a := substring 0 n t in
  match substring n (String.length t - n) t with
  | String c b =>
      if Ascii.eqb c sep && digits n a && digits m b then Some (a, b)
      else None
  | EmptyString => None
  end.

(** [/^(\d{4})-(\d{2})$/] *)
Definition re_ym (t : string) := re_pair 4 "-" 2 t.
(** [/^(\d{2})\/(\d{4})$/] *)
Definition re_my (t : string) := re_pair 2 "/" 4 t.
(** [/^(\d{4})$/] *)
Definition re_year (t : string) : option string :=
  if digits 4 t then Some t else None.

(** [(mi >= 0 ? mi : 0)] *)
Definition month_or_0 (mi : Z) : Z := if 0 <=? mi then mi else 0.

Definition monthIndex_str (s : string) : month_index :=
  let t := trim s in
  match re_mon3 t with
  | Some (m1, m2) =>
      let mi := indexOf MONTHS3 (slice0 3 m1) in
      Finite (parseInt m2 * 12 + month_or_0 mi)
  | None =>
  match re_word t with
  | Some (m1, m2) =>
      let abbr := or_empty (or_else (fullTo3 m1) (Some (slice0 3 m1))) in
      let mi := indexOf MONTHS3 abbr in
      Finite (parseInt m2 * 12 + month_or_0 mi)
  | None =>
  match re_ym t with
  | Some (m1, m2) => Finite (parseInt m1 * 12 + (parseInt m2 - 1))
  | None =>
  match re_my t with
  | Some (m1, m2) => Finite (parseInt m2 * 12 + (parseInt m1 - 1))
  | None =>
  match re_year t with
  | Some m1 => Finite (parseInt m1 * 12)
  | None => PosInfinity
  end end end end end.

Definition monthIndex (s : value) : month_index :=
  match s with
  | VStr t => monthIndex_str t
  | _ => PosInfinity
  end.

(** *** Regular expressions of the name heuristics *)

(** [s] starts with [lit] up to the case of letters: the rest of [s]. *)
Fixpoint prefix_ci (lit s : string) : option string :=
  match lit, s with
  | EmptyString, _ => Some s
  | String a lit', String b s' =>
      if Ascii.eqb (lower a) (lower b) then prefix_ci lit' s' else None
  | String _ _, EmptyString => None
  end.

Definition at_end_or_underscore (r : string) : bool :=
  match r with
  | EmptyString => true
  | String c _ => Ascii.eqb c "_"
  end.

(** [(month|date|period|quarter|year)s?($|_)] matched at the start of [s]. *)
Definition time_word_here (s : string) : bool :=
  existsb
    (fun w =>
       match prefix_ci w s with
       | Some r =>
           at_end_or_underscore r
           || match prefix_ci "s" r with
              | Some r' => at_end_or_underscore r'
              | None => false
              end
       | None => false
       end)
    ["month"; "date"; "period"; "quarter"; "year"].

(** The search of [(^|_)...]: [edge] says whether the position is the start
    of the name or follows an underscore. *)
Fixpoint time_word_from (edge : bool) (s : string) : bool :=
  (edge && time_word_here s)
  || match s with
     | EmptyString => false
     | String c s' => time_word_from (Ascii.eqb c "_") s'
     end.

(** [/(^|_)(month|date|period|quarter|year)s?($|_)/i.test(name)] *)
Definition looksLikeTimeName (name : string) : bool :=
  time_word_from true name.

(** The patterns of the preference lists: a literal of letters and
    underscores, optionally anchored by a leading [^] and a trailing [$]. *)
Definition strip_caret (p : string) : bool * string :=
  match p with
  | String "^"%char r => (true, r)
  | _ => (false, p)
  end.

Definition strip_dollar (p : string) : bool * string :=
  match str_rev p with
  | String "$"%char r => (true, str_rev r)
  | _ => (false, p)
  end.

Definition lit_here (lit : string) (to_end : bool) (s : string) : bool :=
  match prefix_ci lit s with
  | Some r => if to_end then String.eqb r "" else true
  | None => false
  end.

Fixpoint lit_from (lit : string) (to_end : bool) (s : string) : bool :=
  lit_here lit to_end s
  || match s with
     | EmptyString => false
     | String _ s' => lit_from lit to_end s'
     end.

(** [new RegExp(p, 'i').test(name)] *)
Definition regex_test_i (p name : string) : bool :=
  let '(from_start, p1) := strip_caret p in
  let '(to_end, lit) := strip_dollar p1 in
  if from_start then lit_here lit to_end name else lit_from lit to_end name.

Definition nameMatches (name : string) (patterns : list string) : bool :=
  existsb (fun p => regex_test_i p name) patterns.

(** ** Axis resolution and pivoting *)

Record axes := {
  xKey : key;
  seriesKey : key;
  yKey : key;
  isMulti : bool
}.

(** The wide row of a pivot: a JS object read by property name. *)
Abbreviation wide := (gmap string value).

Definition timeCandidates : list string :=
  ["^month$"; "month"; "date"; "period"; "quarter"; "^year$"].
Definition geoPrefs : list string :=
  ["^region$"; "region"; "^branch$"; "branch_name"; "city"; "country";
   "location"].
Definition productPrefs : list string :=
  ["^product_category$"; "product_category"; "^category$"; "category";
   "^product$"; "model"; "product_name"; "product"].
Definition metricPref : list string :=
  ["revenue_rm"; "revenue"; "total_amount"; "price"; "sales"; "total";
   "total_sales"; "quantity"; "qty"; "count"].

(** [Map] and [Set] compare keys by SameValueZero: NaN equals NaN and the
    two zeros are equal. *)
Definition same_value_zero (a b : value) : bool :=
  match a, b with
  | VNum S754_nan, VNum S754_nan => true
  | VNum x, VNum y => SFeqb x y
  | VStr s, VStr t => String.eqb s t
  | VBool p, VBool q => Bool.eqb p q
  | VNull, VNull => true
  | VUndef, VUndef => true
  | _, _ => false
  end.

(** [Map.prototype.set] and [Set.prototype.add] store [-0] as [+0]. *)
Definition norm_key (a : value) : value :=
  match a with
  | VNum (S754_zero _) => VNum pos_zero
  | _ => a
  end.

(** [Set.prototype.add] on a set kept in insertion order. *)
Definition set_add (l : list value) (a : value) : list value :=
  if existsb (same_value_zero a) l then l else l ++ [norm_key a].

(** A [Map] from values to wide rows, in insertion order. *)
Definition vmap := list (value * wide).

Fixpoint map_get (m : vmap) (a : value) : option wide :=
  match m with
  | [] => None
  | (b, w) :: m' => if same_value_zero b a then Some w else map_get m' a
  end.

Definition map_has (m : vmap) (a : value) : bool :=
  match map_get m a with
  | Some _ => true
  | None => false
  end.

Fixpoint map_set (m : vmap) (a : value) (w : wide) : vmap :=
  match m with
  | [] => [(norm_key a, w)]
  | (b, w') :: m' =>
      if same_value_zero b a then (b, w) :: m' else (b, w') :: map_set m' a w
  end.

(** [Array.prototype.sort(cmp)]: a stable sort, [a] placed before [b] when
    [cmp a b < 0] and after it when [cmp a b > 0]. The language leaves the
    order to the engine when [cmp] is not a consistent ordering; for one
    that is, every stable sort gives the order of this insertion sort. *)
Section Sort.
Context {A : Type} (cmp : A -> A -> Z).

Fixpoint sort_insert (a : A) (l : list A) : list A :=
  match l with
  | [] => [a]
  | b :: l' => if cmp a b <=? 0 then a :: l else b :: sort_insert a l'
  end.

Fixpoint sort (l : list A) : list A :=
  match l with
  | [] => []
  | a :: l' => sort_insert a (sort l')
  end.

End Sort.

Section Host.

(** [Number.prototype.toString()] and [String.prototype.localeCompare],
    as the engine and its locale provide them. *)
Variable numberToString : number -> string.
Variable localeCompare : string -> string -> Z.

(** [String(v)], also the property name [v] denotes in [o[v]]. *)
Definition String_ (v : value) : string :=
  match v with
  | VNum x => numberToString x
  | VStr s => s
  | VBool true => "true"
  | VBool false => "false"
  | VNull => "null"
  | VUndef => "undefined"
  end.

(** [v ?? ''] *)
Definition or_empty_string (v : value) : value :=
  match v with
  | VNull | VUndef => VStr ""
  | _ => v
  end.

(** [Math.ceil((n || 1) * 0.6)] *)
Definition threshold (n : nat) : number :=
  let n1 := if Nat.eqb n 0 then 1 else Z.of_nat n in
  Math_ceil (SFmul prec emax (num n1) (decimal false 6 1)).

Definition isTimeLikeAxis (name : key) (sampleValues : list value) : bool :=
  if negb (truthy name) then false
  else if looksLikeTimeName (or_empty name) then true
  else
    let toCheck := firstn 15 sampleValues in
    let parsed :=
      List.length
        (List.filter
           (fun v => mi_finite (monthIndex (VStr (String_ (or_empty_string v)))))
           toCheck) in
    geq (num (Z.of_nat parsed)) (threshold (List.length toCheck)).

(** [r?.[k]] with [k] a key variable; [null] names the property "null". *)
Definition get_key (r : record) (k : key) : value :=
  match k with
  | Some s => get r s
  | None => get r "null"
  end.

Definition find_key (p : string -> bool) (l : list string) : key :=
  List.find p l.

(** The local [isNum] of [resolveAxes]. *)
Definition isNum (sample : record) (c : string) : bool :=
  isFinite (toNumber (get sample c)).

(** The roles chosen before the swap of [resolveAxes]: x, series, y. *)
Definition candidates (sample : record) : key * key * key :=
  let cols := keys sample in
  let isNum := isNum sample in
  let numericCols := List.filter isNum cols in
  let nonNumericCols := List.filter (fun c => negb (isNum c)) cols in
  let xKey := find_key (fun c => nameMatches c timeCandidates) cols in
  let geoCol := find_key (fun c => nameMatches c geoPrefs) cols in
  let productCol := find_key (fun c => nameMatches c productPrefs) cols in
  let xKey :=
    if negb (truthy xKey) then
      or_else geoCol
        (or_else (find_key looksLikeTimeName nonNumericCols)
           (or_else (first nonNumericCols) None))
    else xKey in
  let seriesKey :=
    if truthy xKey && truthy productCol && key_neq productCol xKey
    then productCol
    else if truthy xKey && truthy geoCol && key_neq geoCol xKey
    then geoCol
    else or_else (find_key (fun c => key_neq (Some c) xKey) nonNumericCols)
                 None in
  let yKey :=
    find_key
      (fun c => existsb (fun p => regex_test_i p c) metricPref && isNum c)
      cols in
  let yKey :=
    if negb (truthy yKey) then or_else (first numericCols) None else yKey in
  (xKey, seriesKey, yKey).

Definition resolveAxes (rows : list record) : axes :=
  match rows with
  | [] => {| xKey := None; seriesKey := None; yKey := None; isMulti := false |}
  | sample :: _ =>
      let '(xKey, seriesKey, yKey) := candidates sample in
      let xLooksTime :=
        isTimeLikeAxis xKey
          (map (fun r => get_key r xKey) (firstn 20 rows)) in
      let '(xKey, seriesKey) :=
        if negb xLooksTime
           && negb (nameMatches (or_empty xKey) geoPrefs)
           && nameMatches (or_empty seriesKey) geoPrefs
        then (seriesKey, xKey)
        else (xKey, seriesKey) in
      let isMulti :=
        truthy xKey && truthy seriesKey && truthy yKey
        && key_neq xKey seriesKey
        && isFinite (toNumber (get_key sample yKey)) in
      {| xKey := xKey; seriesKey := seriesKey; yKey := yKey;
         isMulti := isMulti |}
  end.

(** The state of the [forEach] of [pivotData]. *)
Record pivot_state := {
  xSet : list value;
  seriesSet : list value;
  table : vmap
}.

Definition pivot_init : pivot_state :=
  {| xSet := []; seriesSet := []; table := [] |}.

(** [(Number.isFinite(v) ? v : 0)] *)
Definition finite_or_0 (v : number) : number :=
  if isFinite v then v else pos_zero.

(** [w[k] = n] for a number [n], on an object whose prototype is
    [Object.prototype]: a property the object has is written and a new one
    is created, but for the name [__proto__] when the object does not have
    it: the assignment then goes to the setter the object inherits, which
    ignores a number, and no property is written. *)
Definition assign_number (w : wide) (k : string) (n : number) : wide :=
  match w !! k with
  | Some _ => <[ k := VNum n ]> w
  | None => if String.eqb k "__proto__" then w else <[ k := VNum n ]> w
  end.

(** One call of the [forEach] callback. A wide row is made with the
    computed key [[xKey]], which it has as a property of its own whatever
    the name. The rows are read with [get]: each has the keys it is read
    at, or a key it lacks names no member of [Object.prototype]. *)
Definition pivot_step (xKey seriesKey yKey : string)
    (st : pivot_state) (r : record) : pivot_state :=
  let x := get r xKey in
  let s := get r seriesKey in
  let v := toNumber (get r yKey) in
  let m :=
    if negb (map_has (table st) x)
    then map_set (table st) x {[ xKey := x ]}
    else table st in
  let m :=
    match map_get m x with
    | Some w => map_set m x (assign_number w (String_ s) (finite_or_0 v))
    | None => m
    end in
  {| xSet := set_add (xSet st) x;
     seriesSet := set_add (seriesSet st) s;
     table := m |}.

(** The comparator given to [xs.sort]. *)
Definition compare_x (a b : value) : Z :=
  let ia := monthIndex (VStr (String_ a)) in
  let ib := monthIndex (VStr (String_ b)) in
  match ia, ib with
  | Finite za, Finite zb => za - zb
  | Finite _, PosInfinity => -1
  | PosInfinity, Finite _ => 1
  | PosInfinity, PosInfinity => localeCompare (String_ a) (String_ b)
  end.

(** [Array.prototype.sort] hands no [undefined] element to the comparator:
    it orders such elements after every other one. *)
Definition compare_elements (cmp : value -> value -> Z) (a b : value) : Z :=
  match a, b with
  | VUndef, VUndef => 0
  | VUndef, _ => 1
  | _, VUndef => -1
  | _, _ => cmp a b
  end.

(** [xs.sort((a, b) => ...)] *)
Definition sort_xs (xs : list value) : list value :=
  sort (compare_elements compare_x) xs.

Record pivoted := {
  data : list (option wide);
  series : list value
}.

Definition pivotData (rows : list record) (xKey seriesKey yKey : string)
  : pivoted :=
  let st := fold_left (pivot_step xKey seriesKey yKey) rows pivot_init in
  let xs := sort_xs (xSet st) in
  {| data := map (fun x => map_get (table st) x) xs;
     series := seriesSet st |}.

End Host.

(** ** The metric as the specification words it *)

(** The keywords scanned in the order of [metricPref], the first keyword
    that matches a numeric column deciding; else the first numeric column;
    else [null]. *)
Definition metric_by_priority (sample : record) : key :=
  let cols := keys sample in
  let hit := fun p =>
    find_key (fun c => regex_test_i p c && isNum sample c) cols in
  match List.filter truthy (map hit metricPref) with
  | k :: _ => k
  | [] => first (List.filter (isNum sample) cols)
  end.

(** ** The temporal shapes *)

(** One or more letters, white space, four digits. *)
Definition word_year (t : string) : Prop :=
  exists w sp y,
    t = w ++ sp ++ y
    /\ w <> "" /\ str_all is_letter w = true
    /\ sp <> "" /\ str_all is_space sp = true
    /\ digits 4 y = true.

(** Four digits, a minus sign, two digits. *)
Definition year_month (t : string) : Prop :=
  exists y m, t = y ++ "-" ++ m /\ digits 4 y = true /\ digits 2 m = true.

(** Two digits, a slash, four digits. *)
Definition month_year (t : string) : Prop :=
  exists m y, t = m ++ "/" ++ y /\ digits 2 m = true /\ digits 4 y = true.

Definition year_only (t : string) : Prop := digits 4 t = true.

Definition temporal_shape (t : string) : Prop :=
  word_year t \/ year_month t \/ month_year t \/ year_only t.

(** The month number [n], below 100, written with two digits. *)
Definition pad2 (n : nat) : string :=
  String (ascii_of_code (48 + Z.of_nat (n / 10)))
    (String (ascii_of_code (48 + Z.of_nat (n mod 10))) "").

(** ** Vocabulary of the properties *)

(** A key is [null] or one of [cols]. *)
Definition key_in (k : key) (cols : list string) : Prop :=
  match k with
  | Some c => In c cols
  | None => True
  end.

Definition keys_differ (a b : key) : Prop :=
  match a, b with
  | Some x, Some s => x <> s
  | _, _ => True
  end.

(** What the three [replace] calls keep: digits, periods and minus signs. *)
Definition kept (c : ascii) : bool :=
  is_digit c || Ascii.eqb c "." || Ascii.eqb c "-".

Section Swap.
Variable numberToString : number -> string.

(** The samples [resolveAxes] hands to [isTimeLikeAxis]. *)
Definition x_samples (rows : list record) (x : key) : list value :=
  map (fun r => get_key r x) (firstn 20 rows).

(** Whether [resolveAxes] exchanges the two roles. *)
Definition swaps (rows : list record) (x s : key) : bool :=
  negb (isTimeLikeAxis numberToString x (x_samples rows x))
  && negb (nameMatches (or_empty x) geoPrefs)
  && nameMatches (or_empty s) geoPrefs.

End Swap.

(** A column that matches some metric keyword and is numeric. *)
Definition metric_candidate (r : record) (c : string) : Prop :=
  nameMatches c metricPref = true /\ isNum r c = true.

(** [c] is the first element of [l], in the order of [l], to satisfy [P]. *)
Definition first_such (P : string -> Prop) (l : list string) (c : string)
  : Prop :=
  exists pre post,
    l = (pre ++ c :: post)%list /\ P c /\ forall d, In d pre -> ~ P d.

(** The string is empty or its first character fails [p]. *)
Definition head_fails (p : ascii -> bool) (s : string) : Prop :=
  match s with
  | EmptyString => True
  | String c _ => p c = false
  end.

(** *** Ordering *)

Section OrderVocabulary.
Variable numberToString : number -> string.
Variable localeCompare : string -> string -> Z.

(** The month index the comparator reads off an x value. *)
Definition x_index (a : value) : month_index :=
  monthIndex (VStr (String_ numberToString a)).

Definition is_time (a : value) : bool := mi_finite (x_index a).

(** Both values have a finite index, that of [a] at most that of [b]. *)
Definition index_le (a b : value) : Prop :=
  exists za zb, x_index a = Finite za /\ x_index b = Finite zb /\ za <= zb.

(** The comparison of the texts of two values by [localeCompare], an
    [undefined] value coming last. *)
Definition compare_text : value -> value -> Z :=
  compare_elements
    (fun a b =>
       localeCompare (String_ numberToString a) (String_ numberToString b)).

End OrderVocabulary.

(** [a] stands somewhere before [b] in [l]. *)
Definition precedes {A} (a b : A) (l : list A) : Prop :=
  exists l1 l2 l3, l = (l1 ++ a :: l2 ++ b :: l3)%list.

(** *** Pivoting *)

(** The distinct values of [l] in the order of their first occurrence. *)
Fixpoint first_seen (l : list value) : list value :=
  match l with
  | [] => []
  | a :: l' =>
      norm_key a
      :: List.filter (fun b => negb (same_value_zero a b)) (first_seen l')
  end.

(** The last element of [l] that satisfies [p]. *)
Definition find_last {A} (p : A -> bool) (l : list A) : option A :=
  List.find p (rev l).

Section PivotVocabulary.
Variable numberToString : number -> string.
Variables xKey seriesKey yKey : string.

(** The name of the field a row writes: its series value as a property
    name. *)
Definition field_of (r : record) : string :=
  String_ numberToString (get r seriesKey).

(** The number a row writes: its normalised metric, 0 when that is not
    finite. *)
Definition cell_of (r : record) : value :=
  let n := toNumber (get r yKey) in
  VNum (if isFinite n then n else pos_zero).

(** The row has the x value [x]. *)
Definition has_x (x : value) (r : record) : bool :=
  same_value_zero (get r xKey) x.

(** A write under the name [k] reaches the wide row: the name is not
    [__proto__], or the row has that name of its own, as the x key. *)
Definition lands (k : string) : bool :=
  negb (String.eqb k "__proto__") || String.eqb xKey "__proto__".

(** A wide row has the name [__proto__] of its own exactly when it is the
    x key. *)
Definition proto_own (w : wide) : Prop :=
  w !! "__proto__" = None <-> xKey <> "__proto__".

(** What the wide row of [x] holds under the name [k], when writes under
    that name land: the cell of the last row with that x value and that
    field name; failing that, under the name of the x key, the x value as
    the first such row has it. It holds nothing under a name whose writes
    do not land. *)
Definition expected_field (rows : list record) (x : value) (k : string)
  : option value :=
  if lands k then
    match find_last (fun r => has_x x r && String.eqb (field_of r) k) rows
    with
    | Some r => Some (cell_of r)
    | None =>
        if String.eqb k xKey
        then option_map (fun r => get r xKey) (List.find (has_x x) rows)
        else None
    end
  else None.

(** What one row does to the wide row of [x], if there is one yet. *)
Definition write_row (x : value) (o : option wide) (r : record)
  : option wide :=
  if has_x x r
  then Some (assign_number (default {[ xKey := get r xKey ]} o)
                           (field_of r)
                           (finite_or_0 (toNumber (get r yKey))))
  else o.

End PivotVocabulary.



(** No element of [acc] is the same value as [b]. *)
Definition fresh_in (acc : list value) (b : value) : bool :=
  negb (existsb (same_value_zero b) acc).

(** ** Sample data *)

Definition quantity_revenue : record :=
  [("quantity", VNum (num 5)); ("revenue", VNum (num 100))].

Definition shoes_west : record :=
  [("category", VStr "Shoes"); ("region", VStr "West");
   ("revenue", VNum (num 100))].

Definition monthly_region : record :=
  [("monthly", VStr "a-b"); ("region", VStr "West");
   ("revenue", VNum (num 100))].

Definition sales_rows : list record :=
  [ [("region", VStr "North"); ("month", VStr "Jan 2024");
     ("revenue", VNum (num 10))];
    [("region", VStr "South"); ("month", VStr "Jan 2024");
     ("revenue", VNum (num 5))];
    [("region", VStr "North"); ("month", VStr "Feb 2024");
     ("revenue", VNum (num 7))] ].

Definition mixed_labels : list value :=
  map VStr ["Jan 2024"; "Apple"; "Zebra"; "Banana"; "Cat"].

Definition other_labels : list value :=
  map VStr ["Apple"; "Zebra"; "Banana"; "Cat"].

Definition jan_row : wide :=
  <[ "month" := VStr "Jan 2024" ]>
    (<[ "North" := VNum (num 10) ]> {[ "South" := VNum (num 5) ]}).

Definition feb_row : wide :=
  <[ "month" := VStr "Feb 2024" ]> {[ "North" := VNum (num 7) ]}.

(** Two rows with the same x value and series value; the metric of the
    second is [null]. *)
Definition first_write : record :=
  [("x", VStr "a"); ("s", VStr "p"); ("y", VNum (num 1))].
Definition second_write : record :=
  [("x", VStr "a"); ("s", VStr "p"); ("y", VNull)].

(** Two rows with the same x value whose series value is the text
    [__proto__]. *)
Definition proto_rows : list record :=
  [ [("x", VStr "a"); ("s", VStr "__proto__"); ("y", VNum (num 1))];
    [("x", VStr "a"); ("s", VStr "__proto__"); ("y", VNum (num 2))] ].

(** A host for the closed examples, none of which prints a number: strings
    compare by code unit. *)
Definition blank_toString (x : number) : string := "".
Definition code_unit_compare (a b : string) : Z :=
  match String.compare a b with
  | Lt => -1
  | Eq => 0
  | Gt => 1
  end.

(** ** Number formatting and the cells of the results table *)

Section Format.
Variable numberToString : number -> string.
(** [nf.format] of the host's [Intl.NumberFormat]. *)
Variable nf_format : number -> string.

Definition isNumber (v : value) : bool :=
  match v with
  | VNum x => isFinite x
  | _ => false
  end.

Definition formatNumber (n : value) : string :=
  let x := toNumber n in
  if isFinite x then nf_format x else String_ numberToString n.

(** The text of a cell of the results table:
    [Number.isFinite(toNumber(val)) ? formatNumber(val) : String(val)]. *)
Definition table_cell (val : value) : string :=
  if isFinite (toNumber val) then formatNumber val
  else String_ numberToString val.

End Format.

(** ** The chart renderer *)

(** What [renderChart] returns: the element chosen, with the rows and the
    data keys it is given. Colours, labels and margins are left out. *)
Inductive chart :=
  | AxesUnresolved
  | TimeBars (rows : list wide) (x : string) (bars : list string)
  | TimeLines (rows : list wide) (x : string) (lines : list string)
  | CategoryBars (rows : list wide) (x : string) (bars : list string)
  | SingleBar (rows : list record) (x y : string)
  | SingleLine (rows : list record) (x y : string)
  | SinglePie (rows : list record) (x y : string)
  | NoChart
  | RenderFailed.

(** The property a key variable names in [o[k]]. *)
Definition key_name (k : key) : string :=
  match k with
  | Some s => s
  | None => "null"
  end.

(** [row[k]] on a wide row. *)
Definition wide_get (w : wide) (k : string) : value :=
  match w !! k with
  | Some v => v
  | None => VUndef
  end.

(** The elements of an array none of which is [undefined]; reading a
    property of [undefined] throws. *)
Fixpoint all_defined {A} (l : list (option A)) : option (list A) :=
  match l with
  | [] => Some []
  | Some a :: l' => option_map (cons a) (all_defined l')
  | None :: _ => None
  end.

Section Render.
Variable numberToString : number -> string.
Variable localeCompare : string -> string -> Z.

(** [renderChart(data, xKey, yKey, type, ...)]; the [catch] branch gives
    [RenderFailed]. *)
Definition renderChart (data : list record) (xKey yKey : key) (type : string)
  : chart :=
  let '{| xKey := rx; seriesKey := seriesKey; yKey := ry; isMulti := isMulti |}
    := resolveAxes numberToString data in
  let ex := or_else xKey rx in
  let ey := or_else yKey ry in
  if negb (truthy ex) || negb (truthy ey) then AxesUnresolved
  else if isMulti then
    let '{| data := wide; series := series |} :=
      pivotData numberToString localeCompare data
                (key_name ex) (key_name seriesKey) (key_name ey) in
    match all_defined wide with
    | None => RenderFailed
    | Some wide =>
        let sampleX := map (fun row => wide_get row (key_name ex)) wide in
        let timeLike := isTimeLikeAxis numberToString ex sampleX in
        let bars := map (String_ numberToString) series in
        if timeLike && negb (String.eqb type "line")
        then TimeBars wide (key_name ex) bars
        else if timeLike && String.eqb type "line"
        then TimeLines wide (key_name ex) bars
        else CategoryBars wide (key_name ex) bars
    end
  else if String.eqb type "bar" then SingleBar data (key_name ex) (key_name ey)
  else if String.eqb type "line" then SingleLine data (key_name ex) (key_name ey)
  else if String.eqb type "pie" then SinglePie data (key_name ex) (key_name ey)
  else NoChart.

(** The chart of a message with results, as the conversation view asks
    for it: nothing when there are no results, else [renderChart] with the
    first two columns of the first record as explicit keys and [bar] as the
    default type. *)
Definition message_chart (results : list record) (chartType : key)
  : option chart :=
  match results with
  | [] => None
  | r :: _ =>
      Some (renderChart results (nth_error (keys r) 0) (nth_error (keys r) 1)
                        (key_name (or_else chartType (Some "bar"))))
  end.

(** The keys [renderChart] uses: the explicit one, else the resolved one. *)
Definition used_x (rows : list record) (xk : key) : key :=
  or_else xk (xKey (resolveAxes numberToString rows)).
Definition used_y (rows : list record) (yk : key) : key :=
  or_else yk (yKey (resolveAxes numberToString rows)).

End Render.

(** ** Query history *)

(** An entry of the history: the fields [id], [text] and [ts]. *)
Record entry := {
  entry_id : string;
  entry_text : string;
  entry_ts : Z
}.

(** The update [addToHistory] hands to [setHistory], the identity when it
    returns early; [uid] and [now] are what [uid()] and [Date.now()] give. *)
Definition addToHistory (uid : string) (now : Z) (text : string)
    (prev : list entry) : list entry :=
  let t := trim text in
  if negb (truthy (Some t)) then prev
  else firstn 200 ({| entry_id := uid; entry_text := t; entry_ts := now |} :: prev).

Definition deleteHistoryItem (id : string) (prev : list entry) : list entry :=
  List.filter (fun h => negb (String.eqb (entry_id h) id)) prev.

Definition clearHistory (prev : list entry) : list entry := [].

(** ** Conversation messages *)

(** A message of the conversation: the fields the modelled updates read or
    write, and [m_rest] for all the others, which the object spread copies.
    [m_results] is [Some] when [results] is an array. *)
Record message (R : Type) := {
  m_type : key;
  m_results : option (list record);
  m_chartType : key;
  m_chartColor : key;
  m_view : key;
  m_rest : R
}.
Arguments m_type {R}.
Arguments m_results {R}.
Arguments m_chartType {R}.
Arguments m_chartColor {R}.
Arguments m_view {R}.
Arguments m_rest {R}.

(** The fields [chartType] and [color] of a UI action. *)
Record ui_action := {
  action_chartType : key;
  action_color : key
}.

(** [l.findIndex(p)], [None] for -1. *)
Fixpoint find_index {A} (p : A -> bool) (l : list A) : option nat :=
  match l with
  | [] => None
  | a :: l' => if p a then Some 0%nat else option_map S (find_index p l')
  end.

Section Conversation.
Context {R : Type}.

(** [m.type === 'bot' && Array.isArray(m.results)] *)
Definition is_result (m : message R) : bool :=
  negb (key_neq (m_type m) (Some "bot"))
  && match m_results m with Some _ => true | None => false end.

(** The copy of the target message with the action applied. *)
Definition with_action (action : ui_action) (m : message R) : message R :=
  {| m_type := m_type m;
     m_results := m_results m;
     m_chartType :=
       if truthy (action_chartType action) then action_chartType action
       else m_chartType m;
     m_chartColor :=
       if truthy (action_color action) then action_color action
       else m_chartColor m;
     m_view := m_view m;
     m_rest := m_rest m |}.

(** The update [applyUiActionToLastResult] hands to [setConversation];
    [note] is the message it appends when there is no result. The target
    index is always one of [prev], where [alter] rewrites the element. *)
Definition applyUiActionToLastResult (action : ui_action) (note : message R)
    (prev : list (message R)) : list (message R) :=
  match find_index is_result (rev prev) with
  | None => (prev ++ [note])%list
  | Some idx =>
      let target := (List.length prev - 1 - idx)%nat in
      alter (with_action action) target prev
  end.

(** [{ ...msg, view: mode }] and [{ ...msg, chartType }] *)
Definition with_view (mode : string) (m : message R) : message R :=
  {| m_type := m_type m; m_results := m_results m;
     m_chartType := m_chartType m; m_chartColor := m_chartColor m;
     m_view := Some mode; m_rest := m_rest m |}.

Definition with_chartType (chartType : string) (m : message R) : message R :=
  {| m_type := m_type m; m_results := m_results m;
     m_chartType := Some chartType; m_chartColor := m_chartColor m;
     m_view := m_view m; m_rest := m_rest m |}.

(** The updates [updateViewMode] and [updateChartType] hand to
    [setConversation]. *)
Definition updateViewMode (index : nat) (mode : string)
    (prev : list (message R)) : list (message R) :=
  imap (fun i msg => if Nat.eqb i index then with_view mode msg else msg) prev.

Definition updateChartType (index : nat) (chartType : string)
    (prev : list (message R)) : list (message R) :=
  imap (fun i msg => if Nat.eqb i index then with_chartType chartType msg
                     else msg) prev.

End Conversation.

(** ** CSV export *)

Definition LF : ascii := "010"%char.
Definition comma : ascii := ","%char.
Definition text_of (c : ascii) : string := String c "".

(** [l.join(sep)] on an array of strings. *)
Fixpoint join (sep : string) (l : list string) : string :=
  match l with
  | [] => ""
  | [a] => a
  | a :: l' => a ++ sep ++ join sep l'
  end.

Section Csv.
Variable numberToString : number -> string.

(** The text [join] gives an element: empty for [null] and [undefined]. *)
Definition element_text (v : value) : string :=
  match v with
  | VNull | VUndef => ""
  | _ => String_ numberToString v
  end.

(** [Object.values(row).join(',')] *)
Definition csv_line (row : record) : string :=
  join (text_of comma) (map (fun kv => element_text (snd kv)) row).

(** The text [exportToCSV] puts in the blob; [None] when the guard on an
    empty array returns. *)
Definition csvContent (rows : list record) : option string :=
  match rows with
  | [] => None
  | r :: _ =>
      let header := join (text_of comma) (keys r) in
      let data := join (text_of LF) (map csv_line rows) in
      Some (header ++ text_of LF ++ data)
  end.

End Csv.

(** ** Vocabulary of the further properties *)

(** The names [looksLikeTimeName] looks for. *)
Definition time_words : list string :=
  ["month"; "date"; "period"; "quarter"; "year"].

Section TimeLikeVocabulary.
Variable numberToString : number -> string.

(** A sample whose text has a finite month index. *)
Definition parses (v : value) : bool :=
  mi_finite (monthIndex (VStr (String_ numberToString (or_empty_string v)))).

(** How many of the first 15 samples parse. *)
Definition parsed (samples : list value) : nat :=
  List.length (List.filter parses (firstn 15 samples)).

End TimeLikeVocabulary.

(** How many samples [isTimeLikeAxis] looks at. *)
Definition checked (samples : list value) : nat :=
  List.length (firstn 15 samples).

(** A key that is [null] or a non-empty name. *)
Definition null_or_truthy (k : key) : Prop := k = None \/ truthy k = true.

(** No two values of the list are the same key of a [Set]. *)
Definition distinct_values (l : list value) : Prop :=
  ForallOrdPairs (fun a b => same_value_zero a b = false) l.

Definition chart_x (c : chart) : key :=
  match c with
  | TimeBars _ x _ | TimeLines _ x _ | CategoryBars _ x _
  | SingleBar _ x _ | SingleLine _ x _ | SinglePie _ x _ => Some x
  | _ => None
  end.

Definition chart_y (c : chart) : key :=
  match c with
  | SingleBar _ _ y | SingleLine _ _ y | SinglePie _ _ y => Some y
  | _ => None
  end.

Definition is_multi_chart (c : chart) : bool :=
  match c with
  | TimeBars _ _ _ | TimeLines _ _ _ | CategoryBars _ _ _ => true
  | _ => false
  end.

Definition is_lines (c : chart) : bool :=
  match c with
  | TimeLines _ _ _ | SingleLine _ _ _ => true
  | _ => false
  end.

(** The chart types the single-series [switch] of [renderChart] knows. *)
Definition known_type (type : string) : bool :=
  String.eqb type "bar" || String.eqb type "line" || String.eqb type "pie".

Definition is_failure (c : chart) : bool :=
  match c with
  | RenderFailed => true
  | _ => false
  end.

(** The number of occurrences of [c] in [s], and in the strings of [l]. *)
Fixpoint count_char (c : ascii) (s : string) : nat :=
  match s with
  | EmptyString => 0
  | String d s' => (if Ascii.eqb d c then 1 else 0) + count_char c s'
  end.

Definition count_in (c : ascii) (l : list string) : nat :=
  list_sum (map (count_char c) l).

Section CsvVocabulary.
Variable numberToString : number -> string.

(** The cells of the export: the header names, then the values row by
    row. *)
Definition csv_cells (rows : list record) : list string :=
  match rows with
  | [] => []
  | r :: _ =>
      (keys r
       ++ flat_map (fun row => map (fun kv => element_text numberToString (snd kv)) row)
                   rows)%list
  end.

End CsvVocabulary.

(** ** Further sample data *)

(** A row whose series value is the name of the x column. *)
Definition clash_rows : list record :=
  [ [("month", VStr "Jan 2024"); ("kind", VStr "month"); ("n", VNum (num 3))] ].

(** A record none of whose columns is named like a time or a geography
    column. *)
Definition dated_totals : record :=
  [("label", VStr "2024-01"); ("name", VStr "Shoes");
   ("amount", VNum (num 5))].

(** A number format for the closed examples: it tells zero from the other
    numbers. *)
Definition zero_format (x : number) : string :=
  match x with
  | S754_zero _ => "0"
  | _ => "#"
  end.

Definition old_entry : entry :=
  {| entry_id := "1-abc"; entry_text := "sales by region"; entry_ts := 1 |}.

Definition csv_rows : list record :=
  [ [("name", VStr "Shoes, red"); ("qty", VNull)];
    [("name", VStr "Hats"); ("qty", VStr "4")] ].

Definition user_message : message unit :=
  {| m_type := Some "user"; m_results := None; m_chartType := None;
     m_chartColor := None; m_view := None; m_rest := tt |}.

Definition result_message : message unit :=
  {| m_type := Some "bot"; m_results := Some sales_rows;
     m_chartType := Some "bar"; m_chartColor := Some "#3b82f6";
     m_view := Some "both"; m_rest := tt |}.

Definition note_message : message unit :=
  {| m_type := Some "bot"; m_results := None; m_chartType := None;
     m_chartColor := None; m_view := None; m_rest := tt |}.

Definition line_action : ui_action :=
  {| action_chartType := Some "line"; action_color := None |}.

(** * Properties *)

(** ** Keys *)

Lemma truthy_Some (k : key) : truthy k = true -> exists c, k = Some c /\ c <> "".
Proof.
  destruct k as [c|]; simpl; [|discriminate].
  intros H. exists c. split; [reflexivity|].
  intros ->. discriminate.
Qed.

Lemma truthy_nonempty c : c <> "" -> truthy (Some c) = true.
Proof. simpl. destruct (String.eqb_spec c ""); [congruence|reflexivity]. Qed.

Lemma or_else_None (a : key) c : or_else a None = Some c -> a = Some c /\ c <> "".
Proof.
  unfold or_else. destruct (truthy a) eqn:E; [|discriminate].
  intros ->. split; [reflexivity|].
  apply truthy_Some in E as (c' & [= ->] & Hc). exact Hc.
Qed.

Lemma or_else_Some (a b : key) c :
  or_else a b = Some c -> a = Some c \/ b = Some c.
Proof. unfold or_else. destruct (truthy a); auto. Qed.

Lemma find_key_Some p l c : find_key p l = Some c -> In c l /\ p c = true.
Proof. apply find_some. Qed.

Lemma first_Some l c : first l = Some c -> In c l.
Proof. destruct l; simpl; [discriminate|]. intros [= ->]. now left. Qed.

Lemma filter_incl_cols (p : string -> bool) l c :
  In c (List.filter p l) -> In c l.
Proof. intros H. now apply filter_In in H. Qed.

Lemma key_neq_Some c x : key_neq (Some c) (Some x) = true -> c <> x.
Proof.
  simpl. intros H ->. rewrite String.eqb_refl in H. discriminate.
Qed.

Lemma find_key_first (p : string -> bool) l c :
  find_key p l = Some c <->
  exists pre post, l = (pre ++ c :: post)%list /\ p c = true
                   /\ forall d, In d pre -> p d = false.
Proof.
  unfold find_key. induction l as [|a l IH]; simpl.
  - split; [discriminate|]. intros (pre & post & E & _). now destruct pre.
  - destruct (p a) eqn:Ea.
    + split.
      * intros [= ->]. exists [], l. repeat split; auto. intros d [].
      * intros (pre & post & E & Hc & Hpre). destruct pre as [|b pre].
        -- now injection E as ->.
        -- injection E as -> _. rewrite (Hpre b) in Ea; [discriminate|now left].
    + rewrite IH. split.
      * intros (pre & post & -> & Hc & Hpre). exists (a :: pre), post.
        repeat split; auto. intros d [<-|Hd]; auto.
      * intros (pre & post & E & Hc & Hpre). destruct pre as [|b pre].
        -- injection E as -> _. congruence.
        -- injection E as -> ->. exists pre, post. repeat split; auto.
           intros d Hd. apply Hpre. now right.
Qed.

Lemma find_key_None (p : string -> bool) l :
  find_key p l = None <-> forall d, In d l -> p d = false.
Proof.
  split.
  - intros H d Hd. now apply (find_none _ _ H).
  - intros H. unfold find_key. induction l as [|a l IH]; simpl; [reflexivity|].
    rewrite (H a) by now left. apply IH. intros d Hd. apply H. now right.
Qed.

(** ** Characters *)

Lemma digit_facts c :
  is_digit c = true ->
  is_space c = false /\ is_letter c = false
  /\ Ascii.eqb c "-" = false /\ Ascii.eqb c "/" = false.
Proof.
  destruct c as [[] [] [] [] [] [] [] []]; vm_compute; intros H;
    try discriminate H; repeat split.
Qed.

Lemma letter_facts c :
  is_letter c = true -> is_space c = false /\ is_digit c = false.
Proof.
  destruct c as [[] [] [] [] [] [] [] []]; vm_compute; intros H;
    try discriminate H; repeat split.
Qed.

Lemma space_facts c :
  is_space c = true -> is_letter c = false /\ is_digit c = false.
Proof.
  destruct c as [[] [] [] [] [] [] [] []]; vm_compute; intros H;
    try discriminate H; repeat split.
Qed.

Lemma keep_kept c : keep1 c && (keep2 c && keep3 c) = kept c.
Proof. destruct c as [[] [] [] [] [] [] [] []]; reflexivity. Qed.

Lemma str_filter_twice p q s :
  str_filter q (str_filter p s) = str_filter (fun c => p c && q c) s.
Proof.
  induction s as [|c s IH]; simpl; [reflexivity|].
  destruct (p c); simpl; [destruct (q c)|]; now rewrite IH.
Qed.

Lemma str_filter_ext p q s :
  (forall c, p c = q c) -> str_filter p s = str_filter q s.
Proof.
  intros E. induction s as [|c s IH]; simpl; [reflexivity|].
  now rewrite E, IH.
Qed.

Lemma str_filter_all p s : str_all p (str_filter p s) = true.
Proof.
  induction s as [|c s IH]; simpl; [reflexivity|].
  destruct (p c) eqn:E; simpl; [now rewrite E|exact IH].
Qed.

Lemma str_filter_none p s :
  str_all (fun c => negb (p c)) s = true -> str_filter p s = "".
Proof.
  induction s as [|c s IH]; simpl; [reflexivity|].
  destruct (p c); simpl; [discriminate|exact IH].
Qed.

(** ** Number normalisation *)

(** [toNumber] returns a number unchanged. *)
Lemma toNumber_number x : toNumber (VNum x) = x.
Proof. reflexivity. Qed.

(** The string handed to [Number] is the input with every character other
    than a digit, a period or a minus sign removed. *)
Lemma cleaned_kept s :
  cleaned s = str_filter kept s /\ str_all kept (cleaned s) = true.
Proof.
  assert (cleaned s = str_filter kept s) as E.
  { unfold cleaned. rewrite !str_filter_twice. apply str_filter_ext.
    intros c. apply keep_kept. }
  split; [exact E|]. rewrite E. apply str_filter_all.
Qed.

(** On a string, [toNumber] is [Number] of the cleaned string when that is
    finite, and NaN otherwise. *)
Lemma toNumber_string s :
  toNumber (VStr s) =
  if isFinite (Number_ (str_filter kept s)) then Number_ (str_filter kept s)
  else NaN.
Proof. simpl. now rewrite (proj1 (cleaned_kept s)). Qed.

(** The result is never an infinity. *)
Lemma toNumber_string_finite_or_NaN s :
  isFinite (toNumber (VStr s)) = true \/ toNumber (VStr s) = NaN.
Proof.
  simpl. destruct (isFinite (Number_ (cleaned s))) eqn:E; auto.
Qed.

(** The binary64 value 1234.5 is 5429388417957888 * 2^-42. *)
Lemma toNumber_currency :
  toNumber (VStr "RM 1,234.50") = S754_finite false 5429388417957888 (-42)
  /\ 5429388417957888 * 2 = 2469 * 2 ^ 42.
Proof. split; reflexivity. Qed.

(** A string with no digit, period or minus sign is cleaned to the empty
    string, which [Number] reads as 0: [toNumber] returns 0, not NaN. *)
Lemma toNumber_text_is_zero s :
  str_all (fun c => negb (kept c)) s = true -> toNumber (VStr s) = pos_zero.
Proof.
  intros H. rewrite toNumber_string, (str_filter_none kept s H). reflexivity.
Qed.

(** C3 at the input "abc": the code returns the number 0, which is finite,
    where the specification has NaN. *)
Theorem toNumber_abc :
  toNumber (VStr "abc") = pos_zero
  /\ isFinite (toNumber (VStr "abc")) = true.
Proof. split; reflexivity. Qed.

(** ** Month indexes *)

Lemma digits4_inv y :
  digits 4 y = true ->
  exists a b c d,
    y = String a (String b (String c (String d "")))
    /\ is_digit a = true /\ is_digit b = true
    /\ is_digit c = true /\ is_digit d = true.
Proof.
  unfold digits. intros H. apply andb_prop in H as [Hl Ha].
  destruct y as [|a [|b [|c [|d [|e y]]]]]; try discriminate Hl.
  simpl in Ha. repeat (apply andb_prop in Ha as [? Ha]).
  exists a, b, c, d. repeat split; auto.
Qed.

Lemma digits2_inv m :
  digits 2 m = true ->
  exists a b,
    m = String a (String b "") /\ is_digit a = true /\ is_digit b = true.
Proof.
  unfold digits. intros H. apply andb_prop in H as [Hl Ha].
  destruct m as [|a [|b [|e m]]]; try discriminate Hl.
  simpl in Ha. repeat (apply andb_prop in Ha as [? Ha]).
  exists a, b. repeat split; auto.
Qed.

(** Evaluation of the matchers on strings whose digits are variables. *)
Ltac use_digit H :=
  let Hs := fresh "Hs" in let Hl := fresh "Hl" in
  let Hm := fresh "Hm" in let Hd := fresh "Hd" in
  pose proof (digit_facts _ H) as (Hs & Hl & Hm & Hd).

Ltac rewrite_chars :=
  repeat match goal with
  | H : ?f ?c = _ |- context [?f ?c] => rewrite H
  | H : Ascii.eqb ?c ?d = _ |- context [Ascii.eqb ?c ?d] => rewrite H
  end.

Ltac eval_closed f :=
  match goal with
  | |- context [f ?c] =>
      let v := eval vm_compute in (f c) in
      match v with
      | true => change (f c) with true
      | false => change (f c) with false
      end
  end.

Ltac run :=
  repeat (cbn; rewrite_chars;
          repeat first [eval_closed is_space | eval_closed is_letter
                       | eval_closed is_digit]).

Ltac by_run :=
  unfold trim, trimStart, trimEnd, str_rev, re_mon3, re_word, re_ym, re_my,
    re_year, re_pair, space_year, digits;
  run; reflexivity.

Ltac name_text T :=
  cbv [String.append];
  match goal with |- monthIndex_str ?t = _ => set (T := t) end.

Lemma monthIndex_year_month y m :
  digits 4 y = true -> digits 2 m = true ->
  monthIndex_str (y ++ "-" ++ m)
  = Finite (parseInt y * 12 + (parseInt m - 1)).
Proof.
  intros Hy Hm.
  apply digits4_inv in Hy as (a & b & c & d & -> & Ha & Hb & Hc & Hd).
  apply digits2_inv in Hm as (e & f & -> & He & Hf).
  use_digit Ha. use_digit Hb. use_digit Hc. use_digit Hd.
  use_digit He. use_digit Hf.
  name_text T.
  assert (trim T = T) as Ht by by_run.
  assert (re_mon3 T = None) as H1 by by_run.
  assert (re_word T = None) as H2 by by_run.
  assert (re_ym T = Some (String a (String b (String c (String d ""))),
                          String e (String f ""))) as H3 by by_run.
  unfold monthIndex_str. rewrite Ht, H1, H2, H3. reflexivity.
Qed.

Lemma monthIndex_month_year y m :
  digits 4 y = true -> digits 2 m = true ->
  monthIndex_str (m ++ "/" ++ y)
  = Finite (parseInt y * 12 + (parseInt m - 1)).
Proof.
  intros Hy Hm.
  apply digits4_inv in Hy as (a & b & c & d & -> & Ha & Hb & Hc & Hd).
  apply digits2_inv in Hm as (e & f & -> & He & Hf).
  use_digit Ha. use_digit Hb. use_digit Hc. use_digit Hd.
  use_digit He. use_digit Hf.
  name_text T.
  assert (trim T = T) as Ht by by_run.
  assert (re_mon3 T = None) as H1 by by_run.
  assert (re_word T = None) as H2 by by_run.
  assert (re_ym T = None) as H3 by by_run.
  assert (re_my T = Some (String e (String f ""),
                          String a (String b (String c (String d "")))))
    as H4 by by_run.
  unfold monthIndex_str. rewrite Ht, H1, H2, H3, H4. reflexivity.
Qed.

Lemma monthIndex_abbr_year k abbr y :
  nth_error MONTHS3 k = Some abbr -> digits 4 y = true ->
  monthIndex_str (abbr ++ " " ++ y) = Finite (parseInt y * 12 + Z.of_nat k).
Proof.
  intros Hk Hy.
  apply digits4_inv in Hy as (a & b & c & d & -> & Ha & Hb & Hc & Hd).
  use_digit Ha. use_digit Hb. use_digit Hc. use_digit Hd.
  do 12 (destruct k as [|k];
         [ injection Hk as <-; name_text T;
           assert (trim T = T) as Ht by by_run;
           unfold monthIndex_str; rewrite Ht; subst T;
           unfold re_mon3, space_year, digits; run; reflexivity |]).
  destruct k; discriminate Hk.
Qed.

Lemma months3_index k abbr :
  nth_error MONTHS3 k = Some abbr ->
  (k < 12)%nat /\ digits 2 (pad2 (k + 1)) = true
  /\ parseInt (pad2 (k + 1)) - 1 = Z.of_nat k.
Proof.
  intros Hk.
  do 12 (destruct k as [|k]; [repeat split; lia|]).
  destruct k; discriminate Hk.
Qed.

(** C8. "Jan 2024", "2024-01" and "01/2024" all have the month index
    2024 * 12 + 0; and for every month, of offset [k] between 0 and 11, and
    every four-digit year, the abbreviated-month, year-dash-month and
    month-slash-year texts of that month have the index year * 12 + k. *)
Theorem monthIndex_formats_agree :
  (monthIndex (VStr "Jan 2024") = Finite (2024 * 12 + 0)
   /\ monthIndex (VStr "2024-01") = Finite (2024 * 12 + 0)
   /\ monthIndex (VStr "01/2024") = Finite (2024 * 12 + 0))
  /\ forall (k : nat) (abbr y : string),
       nth_error MONTHS3 k = Some abbr -> digits 4 y = true ->
       let i := Finite (parseInt y * 12 + Z.of_nat k) in
       0 <= Z.of_nat k <= 11
       /\ monthIndex (VStr (abbr ++ " " ++ y)) = i
       /\ monthIndex (VStr (y ++ "-" ++ pad2 (k + 1))) = i
       /\ monthIndex (VStr (pad2 (k + 1) ++ "/" ++ y)) = i.
Proof.
  split; [repeat split; reflexivity|].
  intros k abbr y Hk Hy i. subst i.
  destruct (months3_index k abbr Hk) as (Hlt & Hp & Hv).
  split; [lia|]. cbn [monthIndex]. split; [|split].
  - now apply monthIndex_abbr_year.
  - rewrite (monthIndex_year_month y _ Hy Hp), <- Hv. f_equal.
  - rewrite (monthIndex_month_year y _ Hy Hp), <- Hv. f_equal.
Qed.

(** C8 at February 2023. *)
Lemma monthIndex_formats_agree_feb_2023 :
  monthIndex (VStr "Feb 2023") = Finite (2023 * 12 + 1)
  /\ monthIndex (VStr "2023-02") = Finite (2023 * 12 + 1)
  /\ monthIndex (VStr "02/2023") = Finite (2023 * 12 + 1).
Proof.
  exact (proj2 (proj2 monthIndex_formats_agree 1%nat "Feb" "2023"
                  eq_refl eq_refl)).
Defined.

(** C9. The digit shapes are not range-checked: for every four-digit [y]
    and two-digit [m], from 00 to 99, "y-m" and "m/y" have the finite index
    y * 12 + (m - 1). *)
Theorem monthIndex_month_unchecked (y m : string) :
  digits 4 y = true -> digits 2 m = true ->
  monthIndex (VStr (y ++ "-" ++ m))
  = Finite (parseInt y * 12 + (parseInt m - 1))
  /\ monthIndex (VStr (m ++ "/" ++ y))
     = Finite (parseInt y * 12 + (parseInt m - 1)).
Proof.
  intros Hy Hm. cbn [monthIndex]. split.
  - now apply monthIndex_year_month.
  - now apply monthIndex_month_year.
Qed.

(** C9 at month 13 and month 00 of 2024: they are January 2025 and
    December 2023. *)
Lemma monthIndex_month_13_and_00 :
  (monthIndex (VStr "2024-13") = monthIndex (VStr "Jan 2025")
   /\ monthIndex (VStr "13/2024") = monthIndex (VStr "Jan 2025"))
  /\ (monthIndex (VStr "2024-00") = monthIndex (VStr "Dec 2023")
      /\ monthIndex (VStr "00/2024") = monthIndex (VStr "Dec 2023")).
Proof.
  split.
  - exact (monthIndex_month_unchecked "2024" "13" eq_refl eq_refl).
  - exact (monthIndex_month_unchecked "2024" "00" eq_refl eq_refl).
Defined.

Lemma append_nil b : "" ++ b = b.
Proof. reflexivity. Qed.

Lemma append_cons c a b : String c a ++ b = String c (a ++ b).
Proof. reflexivity. Qed.

Ltac norm_app := rewrite ?append_cons, ?append_nil in *.

Lemma span_sound p s a b :
  span p s = (a, b) -> s = a ++ b /\ str_all p a = true.
Proof.
  revert a b. induction s as [|c s IH]; simpl; intros a b H.
  - injection H as <- <-. now split.
  - destruct (p c) eqn:E.
    + destruct (span p s) as [a' b'] eqn:Es. injection H as <- <-.
      destruct (IH a' b' eq_refl) as [-> Ha]. simpl. now rewrite E, Ha.
    + injection H as <- <-. now split.
Qed.

Lemma span_complete p a b :
  str_all p a = true -> head_fails p b -> span p (a ++ b) = (a, b).
Proof.
  intros Ha Hb. induction a as [|c a IH]; norm_app; simpl in *.
  - destruct b as [|c b]; simpl in *; [reflexivity|now rewrite Hb].
  - apply andb_prop in Ha as [Hc Ha]. now rewrite Hc, (IH Ha).
Qed.

Lemma digits4_head p y :
  digits 4 y = true -> (forall c, is_digit c = true -> p c = false) ->
  head_fails p y.
Proof.
  intros Hy Hp. apply digits4_inv in Hy as (a & b & c & d & -> & Ha & _).
  simpl. now apply Hp.
Qed.

Lemma space_year_sound r y :
  space_year r = Some y ->
  exists sp, r = sp ++ y /\ sp <> "" /\ str_all is_space sp = true
             /\ digits 4 y = true.
Proof.
  unfold space_year. destruct (span is_space r) as [sp y'] eqn:Es.
  destruct (String.eqb_spec sp ""); simpl; [discriminate|].
  destruct (digits 4 y') eqn:Ed; [|discriminate]. intros [= <-].
  apply span_sound in Es as [-> Hs]. now exists sp.
Qed.

Lemma space_year_complete sp y :
  sp <> "" -> str_all is_space sp = true -> digits 4 y = true ->
  space_year (sp ++ y) = Some y.
Proof.
  intros Hne Hs Hy. unfold space_year. rewrite span_complete; auto.
  - destruct (String.eqb_spec sp ""); [contradiction|]. simpl. now rewrite Hy.
  - apply digits4_head; auto. intros c Hc. apply (digit_facts c Hc).
Qed.

Lemma re_mon3_sound t m1 m2 : re_mon3 t = Some (m1, m2) -> word_year t.
Proof.
  unfold re_mon3. destruct t as [|a [|b [|c r]]]; try discriminate.
  destruct (is_letter a && is_letter b && is_letter c) eqn:El; [|discriminate].
  destruct (space_year r) as [y|] eqn:Ey; [|discriminate]. intros _.
  apply space_year_sound in Ey as (sp & -> & Hne & Hs & Hy).
  exists (String a (String b (String c ""))), sp, y.
  split; [reflexivity|]. split; [discriminate|].
  split; [|now repeat split].
  simpl. now rewrite andb_true_r, andb_assoc.
Qed.

Lemma re_word_sound t m1 m2 : re_word t = Some (m1, m2) -> word_year t.
Proof.
  unfold re_word. destruct (span is_letter t) as [w r] eqn:Ew.
  destruct (String.eqb_spec w ""); [discriminate|].
  destruct (space_year r) as [y|] eqn:Ey; [|discriminate]. intros _.
  apply span_sound in Ew as [-> Hw].
  apply space_year_sound in Ey as (sp & -> & Hne & Hs & Hy).
  now exists w, sp, y.
Qed.

Lemma re_word_complete t : word_year t -> re_word t <> None.
Proof.
  intros (w & sp & y & -> & Hw & Hl & Hsp & Hs & Hy).
  unfold re_word. rewrite span_complete; auto.
  - destruct (String.eqb_spec w ""); [contradiction|].
    now rewrite space_year_complete.
  - destruct sp as [|c sp]; [contradiction|]. simpl in *.
    apply andb_prop in Hs as [Hc _]. apply (space_facts c Hc).
Qed.

Lemma substring_all s : substring 0 (String.length s) s = s.
Proof. induction s as [|c s IH]; simpl; [reflexivity|now rewrite IH]. Qed.

Lemma substring_split n t :
  substring 0 n t ++ substring n (String.length t - n) t = t.
Proof.
  revert t. induction n as [|n IH]; intros t.
  - rewrite Nat.sub_0_r, substring_all. now destruct t.
  - destruct t as [|c t]; simpl; [reflexivity|]. norm_app. now rewrite IH.
Qed.

Lemma substring_prefix a r : substring 0 (String.length a) (a ++ r) = a.
Proof.
  induction a as [|c a IH]; norm_app; simpl; [now destruct r|now rewrite IH].
Qed.

Lemma substring_suffix a r :
  substring (String.length a) (String.length (a ++ r) - String.length a)
            (a ++ r) = r.
Proof.
  induction a as [|c a IH]; norm_app; simpl.
  - rewrite Nat.sub_0_r. apply substring_all.
  - exact IH.
Qed.

Lemma digits_length n s : digits n s = true -> String.length s = n.
Proof.
  unfold digits. intros H. apply andb_prop in H as [H _].
  now apply Nat.eqb_eq in H.
Qed.

Lemma re_pair_sound n sep m t a b :
  re_pair n sep m t = Some (a, b) ->
  t = a ++ String sep b /\ digits n a = true /\ digits m b = true.
Proof.
  unfold re_pair. pose proof (substring_split n t) as E.
  destruct (substring n (String.length t - n) t) as [|c b'] eqn:Er;
    [discriminate|].
  destruct (Ascii.eqb_spec c sep); simpl; [|discriminate].
  destruct (digits n (substring 0 n t)) eqn:Ea; simpl; [|discriminate].
  destruct (digits m b') eqn:Eb; [|discriminate].
  intros [= <- <-]. subst c. now rewrite E.
Qed.

Lemma re_pair_complete n sep m a b :
  digits n a = true -> digits m b = true ->
  re_pair n sep m (a ++ String sep b) = Some (a, b).
Proof.
  intros Ha Hb. unfold re_pair. pose proof (digits_length n a Ha) as <-.
  rewrite substring_prefix, substring_suffix, Ascii.eqb_refl, Ha, Hb.
  reflexivity.
Qed.

Lemma monthIndex_str_infinity s :
  monthIndex_str s = PosInfinity <->
  re_mon3 (trim s) = None /\ re_word (trim s) = None
  /\ re_ym (trim s) = None /\ re_my (trim s) = None
  /\ re_year (trim s) = None.
Proof.
  unfold monthIndex_str.
  destruct (re_mon3 (trim s)) as [[? ?]|];
    [split; [discriminate|intros [? _]; discriminate]|].
  destruct (re_word (trim s)) as [[? ?]|];
    [split; [discriminate|intros (_ & ? & _); discriminate]|].
  destruct (re_ym (trim s)) as [[? ?]|];
    [split; [discriminate|intros (_ & _ & ? & _); discriminate]|].
  destruct (re_my (trim s)) as [[? ?]|];
    [split; [discriminate|intros (_ & _ & _ & ? & _); discriminate]|].
  destruct (re_year (trim s));
    [split; [discriminate|intros (_ & _ & _ & _ & ?); discriminate]|].
  tauto.
Qed.

(** C4, as the code has it. [monthIndex] is total, and it returns
    +Infinity exactly for the inputs that are not a string whose trimmed text
    is: one or more letters, white space and four digits; or four digits, a
    minus sign and two digits; or two digits, a slash and four digits; or
    four digits. The word before the year need not name a month. *)
Theorem monthIndex_infinity_iff (v : value) :
  monthIndex v = PosInfinity <->
  match v with
  | VStr s => ~ temporal_shape (trim s)
  | _ => True
  end.
Proof.
  destruct v as [x|s|b| |]; simpl; try tauto.
  rewrite monthIndex_str_infinity. set (t := trim s). split.
  - intros (H1 & H2 & H3 & H4 & H5) [Hw|[Hy|[Hm|Ho]]].
    + now apply re_word_complete in Hw.
    + destruct Hy as (y & m & E & Hy & Hm). unfold re_ym in H3.
      rewrite E in H3. change (y ++ "-" ++ m) with (y ++ String "-" m) in H3.
      rewrite re_pair_complete in H3; auto. discriminate.
    + destruct Hm as (m & y & E & Hm & Hy). unfold re_my in H4.
      rewrite E in H4. change (m ++ "/" ++ y) with (m ++ String "/" y) in H4.
      rewrite re_pair_complete in H4; auto. discriminate.
    + unfold year_only in Ho. unfold re_year in H5. rewrite Ho in H5.
      discriminate.
  - intros Hn. repeat split.
    + destruct (re_mon3 t) as [[m1 m2]|] eqn:E; [|reflexivity].
      exfalso. apply Hn. left. eapply re_mon3_sound; eauto.
    + destruct (re_word t) as [[m1 m2]|] eqn:E; [|reflexivity].
      exfalso. apply Hn. left. eapply re_word_sound; eauto.
    + destruct (re_ym t) as [[m1 m2]|] eqn:E; [|reflexivity].
      exfalso. apply Hn. right. left. apply re_pair_sound in E as (E & ? & ?).
      now exists m1, m2.
    + destruct (re_my t) as [[m1 m2]|] eqn:E; [|reflexivity].
      exfalso. apply Hn. right. right. left.
      apply re_pair_sound in E as (E & ? & ?). now exists m1, m2.
    + unfold re_year. destruct (digits 4 t) eqn:E; [|reflexivity].
      exfalso. apply Hn. right. right. right. exact E.
Qed.

(** C4 as stated fails: the word of "Xyz 2024" is neither an abbreviation
    nor a month name, and the index is 2024 * 12, not +Infinity. *)
Lemma monthIndex_unknown_word_finite :
  indexOf MONTHS3 "Xyz" = -1 /\ fullTo3 "Xyz" = None
  /\ monthIndex (VStr "Xyz 2024") = Finite (2024 * 12).
Proof. repeat split; reflexivity. Qed.

(** The sentinel on examples: "Q1" and text with no year. *)
Lemma monthIndex_unsupported :
  monthIndex (VStr "Q1") = PosInfinity
  /\ monthIndex (VStr "West") = PosInfinity
  /\ monthIndex (VNum (num 2024)) = PosInfinity.
Proof. repeat split; reflexivity. Qed.

(** ** Time-like axes *)

(** On 1 to 15 samples the binary64 product by 0.6, rounded up, is the
    integer ceiling of three fifths of their number. *)
Lemma threshold_three_fifths (n : nat) :
  (1 <= n <= 15)%nat -> threshold n = num ((3 * Z.of_nat n + 4) / 5).
Proof.
  intros [H1 H15].
  do 16 (destruct n as [|n]; [try lia; reflexivity|]). lia.
Qed.

(** A name that looks like a time name makes the axis time-like whatever
    the samples; no name, or the empty name, makes it not time-like. *)
Lemma isTimeLikeAxis_by_name (numberToString : number -> string) name samples :
  (looksLikeTimeName name = true -> name <> "" ->
   isTimeLikeAxis numberToString (Some name) samples = true)
  /\ isTimeLikeAxis numberToString None samples = false
  /\ isTimeLikeAxis numberToString (Some "") samples = false.
Proof.
  repeat split. intros H Hne. unfold isTimeLikeAxis.
  rewrite (truthy_nonempty name Hne). simpl. now rewrite H.
Qed.

(** ** Axis resolution *)

Section Resolve.
Variable numberToString : number -> string.

Local Abbreviation resolve := (resolveAxes numberToString).
Local Abbreviation swaps := (swaps numberToString).

Lemma resolve_cons r rows :
  resolve (r :: rows) =
  let '(x, s, y) := candidates r in
  let '(x', s') := if swaps (r :: rows) x s then (s, x) else (x, s) in
  {| xKey := x'; seriesKey := s'; yKey := y;
     isMulti := truthy x' && truthy s' && truthy y && key_neq x' s'
                && isFinite (toNumber (get_key r y)) |}.
Proof.
  unfold resolveAxes, swaps, x_samples.
  destruct (candidates r) as [[x s] y]. reflexivity.
Qed.

Lemma resolve_yKey r rows : yKey (resolve (r :: rows)) = snd (candidates r).
Proof.
  rewrite resolve_cons. destruct (candidates r) as [[x s] y].
  now destruct (swaps _ x s).
Qed.

End Resolve.

Lemma candidates_x_in r : key_in (fst (fst (candidates r))) (keys r).
Proof.
  unfold candidates. cbn [fst snd].
  destruct (find_key (fun c => nameMatches c timeCandidates) (keys r))
    as [c|] eqn:Ex.
  - destruct (negb (truthy (Some c))) eqn:Et.
    + destruct (or_else _ _) as [d|] eqn:Ed; [|exact I]. simpl.
      apply or_else_Some in Ed as [Ed|Ed];
        [now apply find_key_Some in Ed|].
      apply or_else_Some in Ed as [Ed|Ed];
        [apply find_key_Some in Ed as [Ed _]; eauto using filter_incl_cols|].
      apply or_else_Some in Ed as [Ed|Ed]; [|discriminate].
      apply first_Some in Ed. eauto using filter_incl_cols.
    + simpl. now apply find_key_Some in Ex.
  - simpl. destruct (or_else _ _) as [d|] eqn:Ed; [|exact I]. simpl.
    apply or_else_Some in Ed as [Ed|Ed];
      [now apply find_key_Some in Ed|].
    apply or_else_Some in Ed as [Ed|Ed];
      [apply find_key_Some in Ed as [Ed _]; eauto using filter_incl_cols|].
    apply or_else_Some in Ed as [Ed|Ed]; [|discriminate].
    apply first_Some in Ed. eauto using filter_incl_cols.
Qed.

Lemma candidates_series r :
  key_in (snd (fst (candidates r))) (keys r)
  /\ keys_differ (fst (fst (candidates r))) (snd (fst (candidates r))).
Proof.
  unfold candidates. cbn [fst snd].
  set (x := if negb (truthy _) then _ else _).
  set (geo := find_key (fun c => nameMatches c geoPrefs) (keys r)).
  set (prod := find_key (fun c => nameMatches c productPrefs) (keys r)).
  set (nn := List.filter (fun c => negb (isNum r c)) (keys r)).
  destruct (truthy x && truthy prod && key_neq prod x) eqn:E1.
  { apply andb_prop in E1 as [E1 Hneq]. apply andb_prop in E1 as [Hx Hp].
    apply truthy_Some in Hx as (cx & Ex & _).
    apply truthy_Some in Hp as (cp & Ep & _). rewrite Ep, Ex in *.
    split.
    - simpl. now apply find_key_Some in Ep.
    - simpl. apply key_neq_Some in Hneq. congruence. }
  destruct (truthy x && truthy geo && key_neq geo x) eqn:E2.
  { apply andb_prop in E2 as [E2 Hneq]. apply andb_prop in E2 as [Hx Hg].
    apply truthy_Some in Hx as (cx & Ex & _).
    apply truthy_Some in Hg as (cg & Eg & _). rewrite Eg, Ex in *.
    split.
    - simpl. now apply find_key_Some in Eg.
    - simpl. apply key_neq_Some in Hneq. congruence. }
  destruct (or_else (find_key _ nn) None) as [s|] eqn:Es.
  - apply or_else_None in Es as [Es _].
    apply find_key_Some in Es as [Hin Hneq]. split.
    + simpl. subst nn. eauto using filter_incl_cols.
    + destruct x as [cx|]; simpl; [|exact I].
      apply key_neq_Some in Hneq. congruence.
  - split; [exact I|]. now destruct x.
Qed.

Lemma candidates_y_in r : key_in (snd (candidates r)) (keys r).
Proof.
  unfold candidates. cbn [fst snd].
  destruct (negb (truthy (find_key _ (keys r)))) eqn:Et.
  - destruct (or_else _ None) as [c|] eqn:Ec; [|exact I].
    apply or_else_None in Ec as [Ec _]. apply first_Some in Ec.
    simpl. eauto using filter_incl_cols.
  - destruct (find_key _ (keys r)) as [c|] eqn:Ec; [|exact I].
    simpl. now apply find_key_Some in Ec.
Qed.

(** C7. Applied to the empty result set, [resolveAxes] returns the
    all-null roles with [isMulti] false; being a total function, it raises
    nothing. *)
Theorem resolve_empty (numberToString : number -> string) :
  resolveAxes numberToString [] =
  {| xKey := None; seriesKey := None; yKey := None; isMulti := false |}.
Proof. reflexivity. Qed.

(** C10. For a non-empty result set each of the returned keys is [null] or
    a key of the first record, and the x key and the series key, when both
    are not [null], are different columns. *)
Theorem resolve_keys_of_sample (numberToString : number -> string)
    (r : record) (rows : list record) :
  let a := resolveAxes numberToString (r :: rows) in
  key_in (xKey a) (keys r) /\ key_in (seriesKey a) (keys r)
  /\ key_in (yKey a) (keys r) /\ keys_differ (xKey a) (seriesKey a).
Proof.
  cbv zeta. rewrite resolve_cons.
  pose proof (candidates_x_in r) as Hx.
  pose proof (candidates_series r) as Hs.
  pose proof (candidates_y_in r) as Hy.
  destruct (candidates r) as [[x s] y]. cbn [fst snd] in *.
  destruct Hs as [Hs Hd].
  destruct (swaps _ _ x s); cbn [xKey seriesKey yKey]; repeat split; auto.
  destruct x, s; simpl in *; auto.
Qed.

(** *** The metric column *)

Lemma filter_first (p : string -> bool) pre c post :
  p c = true -> (forall d, In d pre -> p d = false) ->
  List.filter p (pre ++ c :: post) = c :: List.filter p post.
Proof.
  intros Hc Hpre. induction pre as [|a pre IH]; simpl.
  - now rewrite Hc.
  - rewrite (Hpre a) by now left. apply IH. intros d Hd. apply Hpre. now right.
Qed.

Lemma filter_none (p : string -> bool) l :
  (forall d, In d l -> p d = false) -> List.filter p l = [].
Proof.
  induction l as [|a l IH]; simpl; intros H; [reflexivity|].
  rewrite (H a) by now left. apply IH. intros d Hd. apply H. now right.
Qed.

Lemma metric_name_nonempty c : nameMatches c metricPref = true -> c <> "".
Proof. intros H ->. discriminate H. Qed.

Lemma not_true_false (b : bool) : b <> true -> b = false.
Proof. now destruct b. Qed.

Lemma candidates_metric_keyword r c :
  first_such (metric_candidate r) (keys r) c -> snd (candidates r) = Some c.
Proof.
  intros (pre & post & E & [Hm Hn] & Hpre).
  unfold candidates. cbn [snd].
  assert (find_key
            (fun c => existsb (fun p => regex_test_i p c) metricPref
                      && isNum r c) (keys r) = Some c) as ->.
  { apply find_key_first. exists pre, post. repeat split; auto.
    - unfold nameMatches in Hm. now rewrite Hm, Hn.
    - intros d Hd. apply not_true_false. intros H.
      apply andb_prop in H. now apply (Hpre d Hd). }
  now rewrite (truthy_nonempty c (metric_name_nonempty c Hm)).
Qed.

Lemma candidates_metric_numeric r c :
  (forall d, In d (keys r) -> ~ metric_candidate r d) ->
  first_such (fun d => isNum r d = true) (keys r) c -> c <> "" ->
  snd (candidates r) = Some c.
Proof.
  intros Hno (pre & post & E & Hn & Hpre) Hc.
  unfold candidates. cbn [snd].
  assert (find_key
            (fun c => existsb (fun p => regex_test_i p c) metricPref
                      && isNum r c) (keys r) = None) as ->.
  { apply find_key_None. intros d Hd. apply not_true_false. intros H.
    apply andb_prop in H. now apply (Hno d Hd). }
  simpl. rewrite E, filter_first; auto.
  - unfold or_else, first. cbn [hd_error].
    now rewrite (truthy_nonempty c Hc).
  - intros d Hd. apply not_true_false. now apply Hpre.
Qed.

Lemma candidates_metric_null r :
  (forall d, In d (keys r) -> isNum r d = false) -> snd (candidates r) = None.
Proof.
  intros Hno. unfold candidates. cbn [snd].
  assert (find_key
            (fun c => existsb (fun p => regex_test_i p c) metricPref
                      && isNum r c) (keys r) = None) as ->.
  { apply find_key_None. intros d Hd. rewrite (Hno d Hd). apply andb_false_r. }
  simpl. now rewrite filter_none.
Qed.

(** C1, as the code has it. The metric of a non-empty result set is the
    first column, in the column order of the first record, that matches
    some metric keyword and is numeric, whatever the rank of the keyword:
    for the columns quantity then revenue it is quantity. Only when no
    column is such a match does the first numeric column win (its name
    being non-empty), and the metric is [null] when no column is numeric. *)
Theorem resolve_metric_column_order (numberToString : number -> string)
    (r : record) (rows : list record) :
  let y := yKey (resolveAxes numberToString (r :: rows)) in
  (forall c, first_such (metric_candidate r) (keys r) c -> y = Some c)
  /\ ((forall d, In d (keys r) -> ~ metric_candidate r d) ->
      forall c, first_such (fun d => isNum r d = true) (keys r) c ->
                c <> "" -> y = Some c)
  /\ ((forall d, In d (keys r) -> isNum r d = false) -> y = None).
Proof.
  cbv zeta. rewrite resolve_yKey. repeat split.
  - apply candidates_metric_keyword.
  - intros Hno c Hc Hne. now apply candidates_metric_numeric.
  - apply candidates_metric_null.
Qed.

(** C1 at the columns quantity then revenue. *)
Lemma resolve_metric_quantity_first :
  first_such (metric_candidate quantity_revenue) (keys quantity_revenue)
             "quantity"
  /\ yKey (resolveAxes blank_toString [quantity_revenue]) = Some "quantity".
Proof.
  assert (first_such (metric_candidate quantity_revenue)
            (keys quantity_revenue) "quantity") as H.
  { exists [], ["revenue"]. repeat split. intros d []. }
  split; [exact H|].
  exact (proj1 (resolve_metric_column_order blank_toString quantity_revenue [])
               "quantity" H).
Defined.

(** C1 as stated fails: on the columns quantity then revenue, both numeric,
    the keyword priority would choose revenue and the code returns
    quantity. *)
Lemma metric_priority_not_followed :
  metric_by_priority quantity_revenue = Some "revenue"
  /\ (forall numberToString,
        yKey (resolveAxes numberToString [quantity_revenue])
        = Some "quantity").
Proof. split; [reflexivity|]. intros nts. reflexivity. Qed.

(** *** The swap *)

(** C6. On the single record with category Shoes, region West and revenue
    100 the x key is region and the series key is category. In general,
    when the x candidate is not time-like, its name matches no geography
    keyword and the name of the series candidate matches one, the two roles
    are exchanged. *)
Theorem resolve_swap (numberToString : number -> string) :
  (xKey (resolveAxes numberToString [shoes_west]) = Some "region"
   /\ seriesKey (resolveAxes numberToString [shoes_west]) = Some "category")
  /\ forall (r : record) (rows : list record),
       let x := fst (fst (candidates r)) in
       let s := snd (fst (candidates r)) in
       isTimeLikeAxis numberToString x (x_samples (r :: rows) x) = false ->
       nameMatches (or_empty x) geoPrefs = false ->
       nameMatches (or_empty s) geoPrefs = true ->
       xKey (resolveAxes numberToString (r :: rows)) = s
       /\ seriesKey (resolveAxes numberToString (r :: rows)) = x.
Proof.
  split; [split; reflexivity|].
  intros r rows x s Ht Hx Hs. rewrite resolve_cons.
  subst x s. destruct (candidates r) as [[x s] y]. cbn [fst snd] in *.
  unfold swaps. rewrite Ht, Hx, Hs. simpl. split; reflexivity.
Qed.

(** C6 at a record where the swap happens: monthly is the x candidate
    (a time keyword in a name that does not look like a time name), region
    the series candidate. *)
Lemma resolve_swap_monthly_region :
  xKey (resolveAxes blank_toString [monthly_region]) = Some "region"
  /\ seriesKey (resolveAxes blank_toString [monthly_region]) = Some "monthly".
Proof.
  apply (proj2 (resolve_swap blank_toString) monthly_region []);
    reflexivity.
Defined.

(** When the condition of the swap fails, the candidates keep their roles. *)
Lemma resolve_no_swap (numberToString : number -> string) r rows :
  let x := fst (fst (candidates r)) in
  let s := snd (fst (candidates r)) in
  swaps numberToString (r :: rows) x s = false ->
  xKey (resolveAxes numberToString (r :: rows)) = x
  /\ seriesKey (resolveAxes numberToString (r :: rows)) = s.
Proof.
  cbv zeta. intros H. rewrite resolve_cons.
  destruct (candidates r) as [[x s] y]. cbn [fst snd] in *.
  rewrite H. split; reflexivity.
Qed.

(** ** Ordering *)

Section SortFacts.
Context {A : Type} (cmp : A -> A -> Z).

Lemma sort_insert_perm a l : Permutation (a :: l) (sort_insert cmp a l).
Proof.
  induction l as [|b l IH]; simpl; [reflexivity|].
  destruct (cmp a b <=? 0); [reflexivity|].
  rewrite perm_swap. now constructor.
Qed.

Lemma sort_perm l : Permutation l (sort cmp l).
Proof.
  induction l as [|a l IH]; simpl; [constructor|].
  rewrite <- sort_insert_perm. now constructor.
Qed.

Lemma sort_In a l : In a (sort cmp l) <-> In a l.
Proof.
  split; apply Permutation_in; [symmetry|]; apply sort_perm.
Qed.

Lemma sort_Forall (P : A -> Prop) l : Forall P l -> Forall P (sort cmp l).
Proof.
  rewrite !List.Forall_forall. intros H a Ha. apply H. now apply sort_In.
Qed.

Section Sorted.
Variables (P : A -> Prop) (R : A -> A -> Prop).
Hypothesis cmp_le : forall a b, P a -> P b -> cmp a b <= 0 -> R a b.
Hypothesis cmp_gt : forall a b, P a -> P b -> 0 < cmp a b -> R b a.
Hypothesis R_trans : forall a b c, R a b -> R b c -> R a c.

Lemma sort_insert_sorted a l :
  P a -> Forall P l -> StronglySorted R l ->
  StronglySorted R (sort_insert cmp a l).
Proof.
  intros Pa Pl Hs. induction Hs as [|b l Hs IH Hb]; simpl.
  - repeat constructor.
  - apply List.Forall_cons_iff in Pl as [Pb Pl].
    destruct (Z.leb_spec (cmp a b) 0) as [Hc|Hc].
    + constructor; [now constructor|]. constructor; [now apply cmp_le|].
      eapply List.Forall_impl; [|exact Hb]. intros c. apply R_trans.
      now apply cmp_le.
    + constructor; [now apply IH|].
      eapply Permutation_Forall; [apply sort_insert_perm|].
      constructor; [now apply cmp_gt|exact Hb].
Qed.

Lemma sort_sorted l : Forall P l -> StronglySorted R (sort cmp l).
Proof.
  induction l as [|a l IH]; simpl; intros Pl; [constructor|].
  apply List.Forall_cons_iff in Pl as [Pa Pl].
  apply sort_insert_sorted; auto. now apply sort_Forall.
Qed.
End Sorted.

Lemma sort_insert_ext (cmp' : A -> A -> Z) a l :
  (forall b, In b l -> cmp a b = cmp' a b) ->
  sort_insert cmp a l = sort_insert cmp' a l.
Proof.
  induction l as [|b l IH]; simpl; intros H; [reflexivity|].
  rewrite <- (H b) by now left. destruct (cmp a b <=? 0); [reflexivity|].
  f_equal. apply IH. intros c Hc. apply H. now right.
Qed.

End SortFacts.

Lemma sort_ext {A} (cmp cmp' : A -> A -> Z) l :
  (forall a b, In a l -> In b l -> cmp a b = cmp' a b) ->
  sort cmp l = sort cmp' l.
Proof.
  induction l as [|a l IH]; simpl; intros H; [reflexivity|].
  rewrite IH by (intros; apply H; now right).
  apply sort_insert_ext. intros b Hb. apply sort_In in Hb.
  apply H; [now left|now right].
Qed.

Section Order.
Variable numberToString : number -> string.
Variable localeCompare : string -> string -> Z.

Local Abbreviation cmp :=
  (compare_elements (compare_x numberToString localeCompare)).
Local Abbreviation time := (is_time numberToString).
Local Abbreviation idx := (x_index numberToString).

Lemma undefined_is_text : time VUndef = false.
Proof. reflexivity. Qed.

Lemma time_defined a : time a = true -> a <> VUndef.
Proof. intros H ->. rewrite undefined_is_text in H. discriminate. Qed.

Lemma compare_defined (c : value -> value -> Z) a b :
  a <> VUndef -> b <> VUndef -> compare_elements c a b = c a b.
Proof. destruct a, b; try reflexivity; congruence. Qed.

Lemma compare_undefined_last (c : value -> value -> Z) a :
  a <> VUndef ->
  compare_elements c a VUndef = -1 /\ compare_elements c VUndef a = 1.
Proof. destruct a; try (split; reflexivity). congruence. Qed.

Lemma index_time a z : idx a = Finite z -> time a = true.
Proof. unfold is_time. now intros ->. Qed.

Lemma compare_x_time_time a b za zb :
  idx a = Finite za -> idx b = Finite zb -> cmp a b = za - zb.
Proof.
  intros Ea Eb.
  rewrite compare_defined
    by (eapply time_defined, index_time; eassumption).
  unfold compare_x, x_index in *. now rewrite Ea, Eb.
Qed.

Lemma compare_x_time_text a b :
  time a = true -> time b = false -> cmp a b = -1.
Proof.
  intros Ha Hb. pose proof (time_defined a Ha) as Da.
  destruct b; try (rewrite compare_defined by (auto; discriminate));
    try (now apply compare_undefined_last);
    unfold compare_x, is_time, x_index in *;
    (destruct (monthIndex (VStr (String_ _ a))); [|discriminate]);
    match goal with
    | |- context [monthIndex ?v] => now destruct (monthIndex v)
    end.
Qed.

Lemma compare_x_text_time a b :
  time a = false -> time b = true -> cmp a b = 1.
Proof.
  intros Ha Hb. pose proof (time_defined b Hb) as Db.
  destruct a; try (rewrite compare_defined by (auto; discriminate));
    try (now apply compare_undefined_last);
    unfold compare_x, is_time, x_index in *;
    (destruct (monthIndex (VStr (String_ _ b))); [|discriminate]);
    match goal with
    | |- context [match monthIndex ?v with _ => _ end] =>
        now destruct (monthIndex v)
    end.
Qed.

Lemma compare_x_text_text a b :
  time a = false -> time b = false ->
  cmp a b = compare_text numberToString localeCompare a b.
Proof.
  intros Ha Hb. unfold compare_text.
  destruct a, b; try reflexivity;
    unfold compare_elements, compare_x, is_time, x_index in *;
    match type of Ha with
    | mi_finite (monthIndex ?v) = false =>
        destruct (monthIndex v); [discriminate|]
    end;
    match type of Hb with
    | mi_finite (monthIndex ?v) = false =>
        destruct (monthIndex v); [discriminate|]
    end; reflexivity.
Qed.

Lemma time_index a : time a = true -> exists z, idx a = Finite z.
Proof. unfold is_time. destruct (idx a) as [z|]; [eauto|discriminate]. Qed.

Lemma insert_time a F I :
  time a = true -> Forall (fun b => time b = false) I ->
  sort_insert cmp a (F ++ I) = (sort_insert cmp a F ++ I)%list.
Proof.
  intros Ha HI. induction F as [|b F IH]; simpl.
  - destruct I as [|b I]; [reflexivity|]. simpl.
    apply List.Forall_cons_iff in HI as [Hb _].
    now rewrite (compare_x_time_text a b Ha Hb).
  - destruct (cmp a b <=? 0); [reflexivity|]. now rewrite IH.
Qed.

Lemma insert_text a F I :
  time a = false -> Forall (fun b => time b = true) F ->
  sort_insert cmp a (F ++ I) = (F ++ sort_insert cmp a I)%list.
Proof.
  intros Ha HF. induction F as [|b F IH]; simpl; [reflexivity|].
  apply List.Forall_cons_iff in HF as [Hb HF].
  rewrite (compare_x_text_time a b Ha Hb). simpl. now rewrite IH.
Qed.

Lemma filter_Forall {A} (p : A -> bool) l :
  Forall (fun b => p b = true) (List.filter p l).
Proof. apply List.Forall_forall. intros b Hb. now apply filter_In in Hb. Qed.

Lemma filter_neg_Forall {A} (p : A -> bool) l :
  Forall (fun b => p b = false) (List.filter (fun b => negb (p b)) l).
Proof.
  apply List.Forall_forall. intros b Hb. apply filter_In in Hb as [_ Hb].
  now apply negb_true_iff.
Qed.

Lemma sort_splits xs :
  sort cmp xs =
  (sort cmp (List.filter time xs)
   ++ sort cmp (List.filter (fun a => negb (time a)) xs))%list.
Proof.
  induction xs as [|a xs IH]; simpl; [reflexivity|].
  rewrite IH. destruct (time a) eqn:Ha; simpl.
  - apply insert_time; [exact Ha|]. apply sort_Forall, filter_neg_Forall.
  - apply insert_text; [exact Ha|]. apply sort_Forall, filter_Forall.
Qed.

Lemma index_le_trans a b c :
  index_le numberToString a b -> index_le numberToString b c ->
  index_le numberToString a c.
Proof.
  intros (za & zb & Ea & Eb & H1) (zb' & zc & Eb' & Ec & H2).
  exists za, zc. rewrite Eb in Eb'. injection Eb' as <-.
  repeat split; auto. lia.
Qed.

Lemma sort_time_ascending xs :
  StronglySorted (index_le numberToString) (sort cmp (List.filter time xs)).
Proof.
  apply (sort_sorted cmp (fun a => time a = true)).
  - intros a b Ha Hb Hc.
    apply time_index in Ha as [za Ea]. apply time_index in Hb as [zb Eb].
    rewrite (compare_x_time_time a b za zb Ea Eb) in Hc.
    exists za, zb. repeat split; auto. lia.
  - intros a b Ha Hb Hc.
    apply time_index in Ha as [za Ea]. apply time_index in Hb as [zb Eb].
    rewrite (compare_x_time_time a b za zb Ea Eb) in Hc.
    exists zb, za. repeat split; auto. lia.
  - apply index_le_trans.
  - apply filter_Forall.
Qed.

Lemma sort_text_by_localeCompare xs :
  sort cmp (List.filter (fun a => negb (time a)) xs)
  = sort (compare_text numberToString localeCompare)
         (List.filter (fun a => negb (time a)) xs).
Proof.
  apply sort_ext. intros a b Ha Hb.
  apply filter_In in Ha as [_ Ha]. apply filter_In in Hb as [_ Hb].
  apply negb_true_iff in Ha, Hb. now apply compare_x_text_text.
Qed.

End Order.

(** C2, as the code has it. Whatever the axis, the order [xs.sort] gives
    is: the values with a finite month index first, ascending by index, then
    the values with index +Infinity, ordered among themselves by
    [localeCompare] on their texts; the result is a permutation of the
    values. The time-likeness of the axis is not consulted: the labels
    Jan 2024, Apple, Zebra, Banana, Cat, on an axis that is not time-like,
    come out with Jan 2024 first. *)
Theorem order_policy (numberToString : number -> string)
    (localeCompare : string -> string -> Z) :
  (forall xs : list value,
     let order := sort_xs numberToString localeCompare in
     let time := is_time numberToString in
     let text := fun a => negb (is_time numberToString a) in
     order xs
     = (order (List.filter time xs)
        ++ sort (compare_text numberToString localeCompare)
                (List.filter text xs))%list
     /\ StronglySorted (index_le numberToString) (order (List.filter time xs))
     /\ Permutation xs (order xs))
  /\ isTimeLikeAxis numberToString (Some "label") mixed_labels = false
  /\ sort_xs numberToString localeCompare mixed_labels
     = VStr "Jan 2024"
       :: sort (compare_text numberToString localeCompare) other_labels.
Proof.
  assert (forall xs : list value,
     sort_xs numberToString localeCompare xs
     = (sort_xs numberToString localeCompare
                (List.filter (is_time numberToString) xs)
        ++ sort (compare_text numberToString localeCompare)
                (List.filter (fun a => negb (is_time numberToString a)) xs))
       %list) as H.
  { intros xs. unfold sort_xs.
    rewrite <- sort_text_by_localeCompare. apply sort_splits. }
  split; [|split].
  - intros xs order time text. subst order time text. split; [|split].
    + apply H.
    + apply sort_time_ascending.
    + apply sort_perm.
  - reflexivity.
  - rewrite H. reflexivity.
Qed.

Lemma precedes_head {A} (a b : A) l :
  a <> b -> precedes a b (b :: l) -> In b l.
Proof.
  intros Hab (l1 & l2 & l3 & E). destruct l1 as [|c l1].
  - injection E as E _. congruence.
  - injection E as _ ->. apply in_or_app. right. right.
    apply in_or_app. right. now left.
Qed.

(** C2 as stated fails: on an axis that is not time-like, Apple does not
    precede Jan 2024, whatever the collation. *)
Lemma non_time_axis_not_lexical :
  (forall numberToString,
     isTimeLikeAxis numberToString (Some "label") mixed_labels = false)
  /\ (forall numberToString localeCompare,
        ~ precedes (VStr "Apple") (VStr "Jan 2024")
            (sort_xs numberToString localeCompare mixed_labels)).
Proof.
  split; [reflexivity|]. intros nts lc H.
  pose proof (sort_perm (compare_text nts lc) other_labels) as Hp.
  pose proof (sort_splits nts lc mixed_labels) as E.
  rewrite sort_text_by_localeCompare in E.
  change (sort_xs nts lc mixed_labels
          = VStr "Jan 2024" :: sort (compare_text nts lc) other_labels) in E.
  rewrite E in H. apply precedes_head in H; [|discriminate].
  apply (Permutation_in _ (Permutation_sym Hp)) in H. simpl in H.
  repeat destruct H as [H|H]; try discriminate H. exact H.
Qed.

(** The order of the specification's example. *)
Lemma order_three_months (numberToString : number -> string)
    (localeCompare : string -> string -> Z) :
  sort_xs numberToString localeCompare
       (map VStr ["Feb 2024"; "Jan 2024"; "Mar 2024"])
  = map VStr ["Jan 2024"; "Feb 2024"; "Mar 2024"].
Proof. reflexivity. Qed.

(** ** Pivoting *)

Lemma finite_compare_eq sx mx ex sy my ey :
  SFeqb (S754_finite sx mx ex) (S754_finite sy my ey) = true
  <-> S754_finite sx mx ex = S754_finite sy my ey.
Proof.
  unfold SFeqb, SFcompare. split.
  - destruct sx, sy; try discriminate;
      destruct (Z.compare_spec ex ey); try discriminate;
      fold (Pos.compare mx my);
      destruct (Pos.compare_spec mx my); simpl; try discriminate;
      intros _; now subst.
  - intros [= -> -> ->]. rewrite Z.compare_refl, Pos.compare_cont_refl.
    now destruct sy.
Qed.

Lemma SFeqb_norm x y :
  match x, y with
  | S754_nan, S754_nan => true
  | _, _ => SFeqb x y
  end = true <-> norm_key (VNum x) = norm_key (VNum y).
Proof.
  destruct x as [[]|[]| |sx mx ex], y as [[]|[]| |sy my ey];
    try (split; reflexivity);
    try (split; [discriminate|]; intros [=]; fail);
    try (destruct sx; (split; [discriminate|intros [=]]); fail);
    try (destruct sy; (split; [discriminate|intros [=]]); fail).
  rewrite finite_compare_eq. simpl. split; congruence.
Qed.

Lemma same_value_zero_spec a b :
  same_value_zero a b = true <-> norm_key a = norm_key b.
Proof.
  destruct a as [x|s|p| |], b as [y|t|q| |];
    try (simpl; split; [discriminate|]; intros [=]; fail);
    try (simpl; split; reflexivity);
    try (destruct x as [?|?| |? ? ?]; simpl; split; discriminate);
    try (destruct y as [?|?| |? ? ?]; simpl; split; discriminate).
  - rewrite <- SFeqb_norm. simpl. now destruct x, y.
  - simpl. rewrite String.eqb_eq. split; congruence.
  - simpl. rewrite Bool.eqb_true_iff. split; congruence.
Qed.

Lemma same_refl a : same_value_zero a a = true.
Proof. now apply same_value_zero_spec. Qed.

Lemma same_sym a b : same_value_zero a b = same_value_zero b a.
Proof.
  apply eq_true_iff_eq. rewrite !same_value_zero_spec. split; congruence.
Qed.

Lemma same_norm_l a b :
  same_value_zero (norm_key a) b = same_value_zero a b.
Proof.
  apply eq_true_iff_eq. rewrite !same_value_zero_spec.
  assert (norm_key (norm_key a) = norm_key a) as ->; [|reflexivity].
  destruct a as [[]| | | |]; reflexivity.
Qed.

Lemma same_norm_r a b :
  same_value_zero a (norm_key b) = same_value_zero a b.
Proof. now rewrite same_sym, same_norm_l, same_sym. Qed.

Lemma same_trans_l a b c :
  same_value_zero a b = true -> same_value_zero a c = same_value_zero b c.
Proof.
  intros H. apply same_value_zero_spec in H.
  apply eq_true_iff_eq. rewrite !same_value_zero_spec. now rewrite H.
Qed.

(** *** The map *)

Lemma map_get_set m a w b :
  map_get (map_set m a w) b
  = if same_value_zero a b then Some w else map_get m b.
Proof.
  induction m as [|[c w'] m IH]; simpl.
  - now rewrite same_norm_l.
  - destruct (same_value_zero c a) eqn:Eca; simpl.
    + rewrite (same_trans_l c a b Eca).
      now destruct (same_value_zero a b).
    + rewrite IH. destruct (same_value_zero c b) eqn:Ecb; [|reflexivity].
      destruct (same_value_zero a b) eqn:Eab; [|reflexivity].
      rewrite (same_trans_l c b a Ecb), same_sym, Eab in Eca. discriminate.
Qed.

Lemma map_get_same m a b :
  same_value_zero a b = true -> map_get m a = map_get m b.
Proof.
  intros H. induction m as [|[c w] m IH]; simpl; [reflexivity|].
  rewrite (same_sym c a), (same_sym c b), (same_trans_l a b c H).
  now rewrite IH.
Qed.

(** *** The sets *)

Lemma filter_filter {A} (p q : A -> bool) l :
  List.filter p (List.filter q l) = List.filter (fun a => q a && p a) l.
Proof.
  induction l as [|a l IH]; simpl; [reflexivity|].
  destruct (q a); simpl; [destruct (p a)|]; now rewrite IH.
Qed.

Lemma existsb_same_ext a b l :
  same_value_zero a b = true ->
  existsb (same_value_zero a) l = existsb (same_value_zero b) l.
Proof.
  intros H. induction l as [|c l IH]; simpl; [reflexivity|].
  now rewrite IH, (same_trans_l a b c H).
Qed.

Lemma fold_set_add l acc :
  fold_left set_add l acc
  = (acc ++ List.filter (fresh_in acc) (first_seen l))%list.
Proof.
  revert acc. induction l as [|a l IH]; intros acc; simpl.
  - now rewrite app_nil_r.
  - rewrite IH. unfold set_add, fresh_in at 2.
    rewrite (existsb_same_ext (norm_key a) a)
      by (rewrite same_norm_l; apply same_refl).
    destruct (existsb (same_value_zero a) acc) eqn:Ea; simpl.
    + f_equal. rewrite filter_filter. apply filter_ext_in. intros b _.
      unfold fresh_in.
      destruct (same_value_zero a b) eqn:Eab; simpl; [|reflexivity].
      now rewrite <- (existsb_same_ext a b acc Eab), Ea.
    + rewrite <- app_assoc. simpl. f_equal. f_equal.
      rewrite filter_filter. apply filter_ext_in. intros b _.
      unfold fresh_in. rewrite existsb_app. simpl.
      rewrite orb_false_r, same_norm_r, negb_orb, (same_sym b a).
      apply andb_comm.
Qed.

Lemma first_seen_In x l :
  In x (first_seen l) -> exists a, In a l /\ same_value_zero a x = true.
Proof.
  induction l as [|a l IH]; simpl; [intros []|]. intros [<-|H].
  - exists a. split; [now left|]. rewrite same_norm_r. apply same_refl.
  - apply filter_In in H as [H _]. destruct (IH H) as (b & Hb & E).
    exists b. split; [now right|exact E].
Qed.

Lemma first_seen_alone l : fold_left set_add l [] = first_seen l.
Proof.
  rewrite fold_set_add. simpl. rewrite <- (filter_ext (fun _ => true)).
  - induction (first_seen l) as [|a k IH]; simpl; [reflexivity|now rewrite IH].
  - reflexivity.
Qed.

Lemma find_snoc {A} (p : A -> bool) l a :
  List.find p (l ++ [a])
  = match List.find p l with
    | Some b => Some b
    | None => if p a then Some a else None
    end.
Proof.
  induction l as [|b l IH]; simpl; [reflexivity|].
  now destruct (p b).
Qed.


Lemma find_last_cons {A} (p : A -> bool) a l :
  find_last p (a :: l)
  = match find_last p l with
    | Some b => Some b
    | None => if p a then Some a else None
    end.
Proof. unfold find_last. simpl. apply find_snoc. Qed.

Section PivotFacts.
Variable numberToString : number -> string.
Variable localeCompare : string -> string -> Z.
Variables xKey seriesKey yKey : string.

Local Abbreviation step := (pivot_step numberToString xKey seriesKey yKey).
Local Abbreviation field := (field_of numberToString seriesKey).
Local Abbreviation cell := (cell_of yKey).
Local Abbreviation expected := (expected_field numberToString xKey seriesKey yKey).

Local Abbreviation write_row := (write_row numberToString xKey seriesKey yKey).
Local Abbreviation lands := (lands xKey).
Local Abbreviation proto_own := (proto_own xKey).

(** Writes under the name of the x key land. *)
Lemma lands_xKey : lands xKey = true.
Proof.
  unfold lands.
  destruct (String.eqb_spec xKey "__proto__"); [apply orb_true_r|reflexivity].
Qed.

Lemma proto_own_fresh x : proto_own {[ xKey := x ]}.
Proof.
  unfold proto_own. split.
  - intros H ->. rewrite lookup_singleton_eq in H. discriminate.
  - intros H. now apply lookup_singleton_ne.
Qed.

(** On a wide row, an assignment is an insertion or nothing. *)
Lemma assign_lands w k n :
  proto_own w ->
  assign_number w k n = if lands k then <[ k := VNum n ]> w else w.
Proof.
  intros [H1 H2]. unfold assign_number, lands.
  destruct (w !! k) eqn:E;
    destruct (String.eqb_spec k "__proto__") as [->|Hk]; simpl;
    try reflexivity;
    destruct (String.eqb_spec xKey "__proto__") as [Hx|Hx]; try reflexivity.
  - rewrite (H2 Hx) in E. discriminate.
  - exfalso. exact (H1 E Hx).
Qed.

Lemma assign_keeps w k n : proto_own w -> proto_own (assign_number w k n).
Proof.
  intros H. rewrite (assign_lands w k n H). unfold lands.
  destruct (String.eqb_spec k "__proto__") as [->|Hk]; simpl.
  - destruct (String.eqb_spec xKey "__proto__") as [Hx|Hx]; [|exact H].
    unfold proto_own. rewrite lookup_insert_eq.
    split; [discriminate|contradiction].
  - unfold proto_own. rewrite lookup_insert_ne by exact Hk. exact H.
Qed.

Lemma write_row_keeps q o r :
  match o with Some w0 => proto_own w0 | None => True end ->
  match write_row q o r with Some w0 => proto_own w0 | None => True end.
Proof.
  intros Ho. unfold write_row. destruct (has_x xKey q r); [|exact Ho].
  apply assign_keeps. destruct o as [w0|]; [exact Ho|apply proto_own_fresh].
Qed.

Lemma step_table st r q :
  map_get (table (step st r)) q = write_row q (map_get (table st) q) r.
Proof.
  unfold pivot_step, write_row, has_x, map_has. cbn [table].
  set (x := get r xKey). set (m := table st).
  set (m1 := if negb _ then _ else m).
  assert (map_get m1 x = Some (default {[ xKey := x ]} (map_get m x))) as E1.
  { subst m1. destruct (map_get m x) as [w|] eqn:E; simpl; [exact E|].
    now rewrite map_get_set, same_refl. }
  assert (forall b, same_value_zero x b = false -> map_get m1 b = map_get m b)
    as E2.
  { intros b Hb. subst m1. destruct (map_get m x); simpl; [reflexivity|].
    now rewrite map_get_set, Hb. }
  rewrite E1, map_get_set.
  destruct (same_value_zero x q) eqn:Exq.
  - now rewrite (map_get_same m x q Exq).
  - now apply E2.
Qed.

Lemma fold_table rows st q :
  map_get (table (fold_left step rows st)) q
  = fold_left (write_row q) rows (map_get (table st) q).
Proof.
  revert st. induction rows as [|r rows IH]; intros st; simpl; [reflexivity|].
  now rewrite IH, step_table.
Qed.

Lemma fold_xSet rows st :
  xSet (fold_left step rows st)
  = fold_left set_add (map (fun r => get r xKey) rows) (xSet st).
Proof.
  revert st. induction rows as [|r rows IH]; intros st; simpl; [reflexivity|].
  now rewrite IH.
Qed.

Lemma fold_seriesSet rows st :
  seriesSet (fold_left step rows st)
  = fold_left set_add (map (fun r => get r seriesKey) rows) (seriesSet st).
Proof.
  revert st. induction rows as [|r rows IH]; intros st; simpl; [reflexivity|].
  now rewrite IH.
Qed.

Lemma write_rows_keep q rows w0 :
  exists w, fold_left (write_row q) rows (Some w0) = Some w.
Proof.
  revert w0. induction rows as [|r rows IH]; intros w0; simpl; [eauto|].
  unfold write_row at 2. destruct (has_x xKey q r); apply IH.
Qed.

Lemma write_rows_some q rows o :
  (exists r, In r rows /\ has_x xKey q r = true) ->
  exists w, fold_left (write_row q) rows o = Some w.
Proof.
  revert o. induction rows as [|r rows IH]; intros o (r' & Hin & Hx).
  - destruct Hin.
  - simpl. destruct (has_x xKey q r) eqn:Er.
    + unfold write_row at 2. rewrite Er. apply write_rows_keep.
    + destruct Hin as [->|Hin]; [congruence|]. apply IH. eauto.
Qed.

(** What a new wide row holds under [k]. *)
Lemma fresh_lookup x k :
  ({[ xKey := x ]} : wide) !! k = if String.eqb k xKey then Some x else None.
Proof.
  destruct (String.eqb_spec k xKey) as [->|Hx].
  - apply lookup_singleton_eq.
  - apply lookup_singleton_ne. congruence.
Qed.

(** What one row leaves under [k] in the wide row of its x value. *)
Lemma write_row_lookup q k o r :
  match o with Some w0 => proto_own w0 | None => True end ->
  has_x xKey q r = true ->
  exists w, write_row q o r = Some w
    /\ w !! k
       = if lands k && String.eqb (field r) k then Some (cell r)
         else match o with
              | Some w0 => w0 !! k
              | None => if String.eqb k xKey then Some (get r xKey) else None
              end.
Proof.
  intros Ho Hx. unfold write_row. rewrite Hx. eexists. split; [reflexivity|].
  rewrite assign_lands
    by (destruct o as [w0|]; [exact Ho|apply proto_own_fresh]).
  assert ((default {[ xKey := get r xKey ]} o : wide) !! k
          = match o with
            | Some w0 => w0 !! k
            | None => if String.eqb k xKey then Some (get r xKey) else None
            end) as E
    by (destruct o as [w0|]; [reflexivity|apply fresh_lookup]).
  destruct (String.eqb_spec (field r) k) as [<-|Hk].
  - destruct (lands (field r)); simpl; [now rewrite lookup_insert_eq|exact E].
  - rewrite andb_false_r.
    destruct (lands (field r)); [rewrite lookup_insert_ne by exact Hk|];
      exact E.
Qed.

Lemma write_rows_lookup q k rows o w :
  match o with Some w0 => proto_own w0 | None => True end ->
  fold_left (write_row q) rows o = Some w ->
  w !! k
  = match (if lands k
           then find_last (fun r => has_x xKey q r && String.eqb (field r) k)
                          rows
           else None)
    with
    | Some r => Some (cell r)
    | None =>
        match o with
        | Some w0 => w0 !! k
        | None =>
            if String.eqb k xKey
            then option_map (fun r => get r xKey)
                            (List.find (has_x xKey q) rows)
            else None
        end
    end.
Proof.
  revert o. induction rows as [|r rows IH]; intros o Ho; simpl.
  - intros ->. now destruct (lands k).
  - intros H. rewrite (IH _ (write_row_keeps q o r Ho) H), find_last_cons.
    destruct (has_x xKey q r) eqn:Er.
    + destruct (write_row_lookup q k o r Ho Er) as (w1 & -> & E1).
      rewrite E1. simpl.
      destruct (lands k); simpl.
      * destruct (find_last _ rows) as [r'|]; [reflexivity|].
        destruct (String.eqb (field r) k); [reflexivity|].
        destruct o; [reflexivity|]. now destruct (String.eqb k xKey).
      * destruct o; [reflexivity|]. now destruct (String.eqb k xKey).
    + unfold write_row. rewrite Er. simpl.
      destruct (lands k); [|reflexivity].
      now destruct (find_last _ rows).
Qed.

Lemma table_lookup rows x :
  In x (first_seen (map (fun r => get r xKey) rows)) ->
  exists w,
    map_get (table (fold_left step rows pivot_init)) x = Some w
    /\ forall k, w !! k = expected rows x k.
Proof.
  intros Hx. apply first_seen_In in Hx as (a & Ha & E).
  apply in_map_iff in Ha as (r & <- & Hr).
  rewrite fold_table. cbn [table pivot_init map_get].
  destruct (write_rows_some x rows None) as [w Hw]; [now exists r|].
  exists w. split; [exact Hw|]. intros k.
  rewrite (write_rows_lookup x k rows None w I Hw). unfold expected_field.
  destruct (lands k) eqn:El; [reflexivity|].
  destruct (String.eqb_spec k xKey) as [->|_]; [|reflexivity].
  now rewrite lands_xKey in El.
Qed.



Lemma pivot_series rows :
  series (pivotData numberToString localeCompare rows xKey seriesKey yKey)
  = first_seen (map (fun r => get r seriesKey) rows).
Proof.
  unfold pivotData. cbn [series]. rewrite fold_seriesSet.
  apply first_seen_alone.
Qed.

Lemma pivot_data rows :
  Forall2
    (fun x ow => exists w, ow = Some w /\ forall k, w !! k = expected rows x k)
    (sort_xs numberToString localeCompare
          (first_seen (map (fun r => get r xKey) rows)))
    (data (pivotData numberToString localeCompare rows xKey seriesKey yKey)).
Proof.
  unfold pivotData. cbn [data]. rewrite fold_xSet. cbn [xSet pivot_init].
  rewrite first_seen_alone.
  set (l := first_seen _).
  assert (forall x, In x (sort_xs numberToString localeCompare l)
                    -> In x l) as Hin.
  { intros x. apply Permutation_in. symmetry. apply sort_perm. }
  induction (sort_xs _ _ l) as [|x xs IH]; simpl; constructor.
  - destruct (table_lookup rows x) as (w & Hw & Hk); [apply Hin; now left|].
    exists w. split; assumption.
  - apply IH. intros y Hy. apply Hin. now right.
Qed.

End PivotFacts.

(** The reference example of the pivot: the three sales rows on month,
    region and revenue give the Jan 2024 row with North 10 and South 5
    followed by the Feb 2024 row with North 7 and no South field, with the
    series North, South. *)
Lemma pivot_reference_example (numberToString : number -> string)
    (localeCompare : string -> string -> Z) :
  pivotData numberToString localeCompare sales_rows "month" "region" "revenue"
  = {| data := [Some jan_row; Some feb_row];
       series := [VStr "North"; VStr "South"] |}
  /\ feb_row !! "South" = None.
Proof. split; vm_compute; reflexivity. Qed.

(** C5 at two rows with the same x value whose series value is the text
    [__proto__]: the series list names the series, and the wide row of the x
    value holds the x value only, with no field for the series, where the
    specification has a field that holds the metric of the last row. The
    same rows with another series name keep the last write. *)
Theorem pivot_proto_series_lost (numberToString : number -> string)
    (localeCompare : string -> string -> Z) :
  pivotData numberToString localeCompare proto_rows "x" "s" "y"
  = {| data := [Some {[ "x" := VStr "a" ]}];
       series := [VStr "__proto__"] |}
  /\ ({[ "x" := VStr "a" ]} : wide) !! "__proto__" = None
  /\ data (pivotData numberToString localeCompare
                     [first_write; second_write] "x" "s" "y")
     = [Some (<[ "x" := VStr "a" ]> {[ "p" := VNum pos_zero ]})].
Proof. repeat split; vm_compute; reflexivity. Qed.



(** * Further properties *)

(** ** Strings *)

Lemma append_assoc a b c : (a ++ b) ++ c = a ++ (b ++ c).
Proof.
  induction a as [|x a IH]; rewrite ?append_nil, ?append_cons;
    [reflexivity|now rewrite IH].
Qed.

Lemma append_empty_r a : a ++ "" = a.
Proof.
  induction a as [|x a IH]; rewrite ?append_nil, ?append_cons;
    [reflexivity|now rewrite IH].
Qed.

Lemma str_filter_app p a b :
  str_filter p (a ++ b) = str_filter p a ++ str_filter p b.
Proof.
  induction a as [|c a IH]; rewrite ?append_cons, ?append_nil; simpl;
    [reflexivity|].
  destruct (p c); rewrite ?append_cons; now rewrite IH.
Qed.

Lemma str_filter_id p s : str_all p s = true -> str_filter p s = s.
Proof.
  induction s as [|c s IH]; simpl; [reflexivity|]. intros H.
  apply andb_prop in H as [Hc Hs]. now rewrite Hc, IH.
Qed.

Lemma str_filter_drop p q s :
  (forall c, q c = true -> p c = false) -> str_all q s = true ->
  str_filter p s = "".
Proof.
  intros Hpq. induction s as [|c s IH]; simpl; [reflexivity|]. intros H.
  apply andb_prop in H as [Hc Hs]. now rewrite (Hpq c Hc), IH.
Qed.

Lemma str_all_impl (p q : ascii -> bool) s :
  (forall c, p c = true -> q c = true) -> str_all p s = true ->
  str_all q s = true.
Proof.
  intros Hpq. induction s as [|c s IH]; simpl; [reflexivity|]. intros H.
  apply andb_prop in H as [Hc Hs]. now rewrite (Hpq c Hc), IH.
Qed.

Lemma str_rev_onto_app s acc : str_rev_onto s acc = str_rev s ++ acc.
Proof.
  unfold str_rev. revert acc.
  induction s as [|c s IH]; intros acc; simpl; [reflexivity|].
  rewrite IH, (IH (String c "")), append_assoc. reflexivity.
Qed.

Lemma str_rev_cons c s : str_rev (String c s) = str_rev s ++ String c "".
Proof. unfold str_rev at 1. simpl. apply str_rev_onto_app. Qed.

Lemma str_rev_app a b : str_rev (a ++ b) = str_rev b ++ str_rev a.
Proof.
  induction a as [|c a IH]; rewrite ?append_nil, ?append_cons.
  - now rewrite append_empty_r.
  - now rewrite !str_rev_cons, IH, append_assoc.
Qed.

Lemma str_rev_involutive s : str_rev (str_rev s) = s.
Proof.
  induction s as [|c s IH]; [reflexivity|].
  now rewrite str_rev_cons, str_rev_app, IH.
Qed.

Lemma str_rev_nonempty s : s <> "" -> str_rev s <> "".
Proof.
  destruct s as [|c s]; [contradiction|]. intros _. rewrite str_rev_cons.
  destruct (str_rev s); discriminate.
Qed.

Lemma str_all_rev p s : str_all p (str_rev s) = str_all p s.
Proof.
  induction s as [|c s IH]; [reflexivity|]. rewrite str_rev_cons. simpl.
  rewrite <- IH. clear.
  induction (str_rev s) as [|d t IH]; rewrite ?append_nil, ?append_cons; simpl.
  - now rewrite andb_true_r.
  - rewrite IH. now rewrite !andb_assoc, (andb_comm (p d)).
Qed.

Lemma drop_while_all p a r :
  str_all p a = true -> drop_while p (a ++ r) = drop_while p r.
Proof.
  induction a as [|c a IH]; rewrite ?append_nil, ?append_cons; simpl;
    [reflexivity|].
  intros H. apply andb_prop in H as [Hc Ha]. now rewrite Hc, IH.
Qed.

Lemma drop_while_app p s b :
  str_all p b = true ->
  drop_while p (s ++ b) = if str_all p s then "" else drop_while p s ++ b.
Proof.
  intros Hb. induction s as [|c s IH]; rewrite ?append_nil, ?append_cons; simpl.
  - rewrite <- (append_empty_r b). rewrite drop_while_all by exact Hb.
    reflexivity.
  - destruct (p c); simpl; [exact IH|reflexivity].
Qed.

Lemma drop_while_stops p s :
  str_all p s = false ->
  exists c s', drop_while p s = String c s' /\ p c = false.
Proof.
  induction s as [|c s IH]; simpl; [discriminate|].
  destruct (p c) eqn:E; [exact IH|]. intros _. exists c, s. now rewrite E.
Qed.

Lemma drop_while_last p r c :
  p c = false -> drop_while p (r ++ String c "") <> "".
Proof.
  intros Hc. induction r as [|d r IH]; rewrite ?append_nil, ?append_cons; simpl.
  - now rewrite Hc.
  - destruct (p d); [exact IH|discriminate].
Qed.

(** *** [trim] *)

Lemma trimEnd_spaces s b :
  str_all is_space b = true -> trimEnd (s ++ b) = trimEnd s.
Proof.
  intros Hb. unfold trimEnd. rewrite str_rev_app, drop_while_all; [reflexivity|].
  now rewrite str_all_rev.
Qed.

Lemma trim_spaces a s b :
  str_all is_space a = true -> str_all is_space b = true ->
  trim (a ++ s ++ b) = trim s.
Proof.
  intros Ha Hb. unfold trim, trimStart. rewrite drop_while_all by exact Ha.
  rewrite drop_while_app by exact Hb.
  destruct (str_all is_space s) eqn:Es.
  - rewrite <- (append_empty_r s) at 1. rewrite drop_while_all by exact Es.
    reflexivity.
  - now apply trimEnd_spaces.
Qed.

Lemma trim_blank text : str_all is_space text = true -> trim text = "".
Proof.
  intros H. unfold trim, trimStart.
  rewrite <- (append_empty_r text), drop_while_all by exact H. reflexivity.
Qed.

Lemma trim_nonblank text : str_all is_space text = false -> trim text <> "".
Proof.
  intros H. unfold trim, trimStart, trimEnd.
  apply drop_while_stops in H as (c & s & -> & Hc).
  apply str_rev_nonempty. rewrite str_rev_cons. now apply drop_while_last.
Qed.

(** A text that neither starts nor ends with white space is its own trim. *)
Lemma trim_no_edge s c s' d r :
  s = String c s' -> is_space c = false ->
  str_rev s = String d r -> is_space d = false ->
  trim s = s.
Proof.
  intros Es Hc Er Hd. unfold trim, trimStart.
  assert (drop_while is_space s = s) as ->.
  { rewrite Es. simpl. now rewrite Hc. }
  unfold trimEnd. rewrite Er. simpl. rewrite Hd, <- Er.
  apply str_rev_involutive.
Qed.

Lemma trim_word_year w sp y :
  w <> "" -> str_all is_letter w = true -> digits 4 y = true ->
  trim (w ++ sp ++ y) = w ++ sp ++ y.
Proof.
  intros Hne Hw Hy. destruct w as [|c w]; [contradiction|].
  simpl in Hw. apply andb_prop in Hw as [Hc _].
  apply digits4_inv in Hy as (a & b & e & d & -> & Ha & Hb & He & Hd).
  eapply trim_no_edge.
  - rewrite append_cons. reflexivity.
  - apply (letter_facts c Hc).
  - rewrite !str_rev_app. reflexivity.
  - apply (digit_facts d Hd).
Qed.

(** ** Number normalisation, continued *)

(** X1. [toNumber] looks at nothing of a string but its digits, periods and
    minus signs, in their order: two strings that agree on them normalise to
    the same number. *)
Theorem toNumber_ignores_other_characters s t :
  str_filter kept s = str_filter kept t ->
  toNumber (VStr s) = toNumber (VStr t).
Proof. intros H. rewrite !toNumber_string. now rewrite H. Qed.

(** X1 on a currency amount and its bare digits. *)
Lemma toNumber_ignores_currency :
  toNumber (VStr "RM 1,234.50") = toNumber (VStr "1234.50").
Proof.
  exact (toNumber_ignores_other_characters "RM 1,234.50" "1234.50" eq_refl).
Defined.

Lemma kept_facts c :
  (is_digit c = true -> kept c = true)
  /\ (is_letter c = true -> kept c = false)
  /\ (is_space c = true -> kept c = false).
Proof.
  destruct c as [[] [] [] [] [] [] [] []]; vm_compute; repeat split;
    intros H; try discriminate H; reflexivity.
Qed.

Lemma digits_all n s : digits n s = true -> str_all is_digit s = true.
Proof. unfold digits. intros H. now apply andb_prop in H. Qed.

Lemma digits_nonempty n s : digits (S n) s = true -> s <> "".
Proof. intros H ->. discriminate H. Qed.

(** [Number] on a non-empty string of digits. *)
Lemma Number_digits s :
  s <> "" -> str_all is_digit s = true ->
  Number_ s = decimal false (parseInt s) 0.
Proof.
  intros Hne Hs. destruct s as [|c s]; [contradiction|].
  pose proof Hs as Hs'. simpl in Hs'. apply andb_prop in Hs' as [Hc _].
  assert (span is_digit (String c s) = (String c s, "")) as E.
  { rewrite <- (span_complete is_digit (String c s) "") at 1; [|exact Hs|exact I].
    f_equal. clear. induction (String c s) as [|a t IH]; [reflexivity|].
    rewrite append_cons. now f_equal. }
  unfold Number_.
  destruct c as [[] [] [] [] [] [] [] []]; try discriminate Hc; rewrite E;
    reflexivity.
Qed.

(** Every integer below 10000 is a finite binary64 number. *)
Lemma small_decimal_finite m :
  0 <= m < 10000 -> isFinite (decimal false m 0) = true.
Proof.
  intros H.
  assert (forallb (fun n => isFinite (decimal false (Z.of_nat n) 0))
                  (seq 0 (Z.to_nat 10000)) = true) as A
    by (vm_compute; reflexivity).
  rewrite forallb_forall in A. specialize (A (Z.to_nat m)).
  rewrite Z2Nat.id in A by lia. apply A. apply in_seq. lia.
Qed.

Lemma digit_value c : is_digit c = true -> 0 <= code c - 48 <= 9.
Proof.
  unfold is_digit, in_range. intros H. apply andb_prop in H as [H1 H2]. lia.
Qed.

Lemma parseInt_4 y : digits 4 y = true -> 0 <= parseInt y < 10000.
Proof.
  intros H. apply digits4_inv in H as (a & b & c & d & -> & Ha & Hb & Hc & Hd).
  apply digit_value in Ha, Hb, Hc, Hd. unfold parseInt. simpl. lia.
Qed.

Lemma parseInt_2 m : digits 2 m = true -> 0 <= parseInt m < 100.
Proof.
  intros H. apply digits2_inv in H as (a & b & -> & Ha & Hb).
  apply digit_value in Ha, Hb. unfold parseInt. simpl. lia.
Qed.

(** X2. A label made of a word, white space and a four-digit year, such as
    a month with its year, normalises to the year, a finite number, so a
    column of such labels counts as numeric; a label of the shape YYYY-MM
    normalises to NaN. *)
Theorem temporal_text_numeric w sp y m :
  str_all is_letter w = true -> str_all is_space sp = true ->
  digits 4 y = true -> digits 2 m = true ->
  (toNumber (VStr (w ++ sp ++ y)) = decimal false (parseInt y) 0
   /\ isFinite (toNumber (VStr (w ++ sp ++ y))) = true)
  /\ toNumber (VStr (y ++ "-" ++ m)) = NaN.
Proof.
  intros Hw Hsp Hy Hm.
  assert (toNumber (VStr (w ++ sp ++ y)) = decimal false (parseInt y) 0) as E.
  { rewrite toNumber_string, !str_filter_app.
    rewrite (str_filter_drop kept is_letter w) by (auto; apply kept_facts).
    rewrite (str_filter_drop kept is_space sp) by (auto; apply kept_facts).
    rewrite (str_filter_id kept y)
      by (eapply str_all_impl; [apply kept_facts|now apply digits_all in Hy]).
    rewrite !append_nil, (Number_digits y);
      [|now apply digits_nonempty in Hy|now apply digits_all in Hy].
    now rewrite small_decimal_finite by now apply parseInt_4. }
  split; [split; [exact E|]|].
  - rewrite E. apply small_decimal_finite. now apply parseInt_4.
  - apply digits4_inv in Hy as (a & b & c & d & -> & Ha & Hb & Hc & Hd).
    apply digits2_inv in Hm as (e & f & -> & He & Hf).
    rewrite toNumber_string. cbv [String.append].
    rewrite str_filter_id.
    + unfold Number_.
      destruct a as [[] [] [] [] [] [] [] []]; try discriminate Ha;
        cbn [span]; rewrite ?Ha, ?Hb, ?Hc, ?Hd; cbn; reflexivity.
    + cbn. rewrite (proj1 (kept_facts a) Ha), (proj1 (kept_facts b) Hb),
        (proj1 (kept_facts c) Hc), (proj1 (kept_facts d) Hd),
        (proj1 (kept_facts e) He), (proj1 (kept_facts f) Hf). reflexivity.
Qed.

(** X2 on the labels of January 2024. *)
Lemma temporal_text_january :
  (toNumber (VStr "Jan 2024") = num 2024
   /\ isFinite (toNumber (VStr "Jan 2024")) = true)
  /\ toNumber (VStr "2024-01") = NaN.
Proof.
  exact (temporal_text_numeric "Jan" " " "2024" "01"
           eq_refl eq_refl eq_refl eq_refl).
Defined.

Section FormatFacts.
Variable numberToString : number -> string.
Variable nf_format : number -> string.

Local Abbreviation format := (formatNumber numberToString nf_format).
Local Abbreviation cell := (table_cell numberToString nf_format).

(** X3. The finiteness test of a table cell changes nothing: the cell shows
    what [formatNumber] gives. A string with no digit, period or minus sign
    is formatted as the number 0 is; a finite number goes through the number
    format; [null], [undefined] and the booleans are shown by [String]. *)
Theorem table_cell_is_formatNumber :
  (forall v, cell v = format v)
  /\ (forall s, str_all (fun c => negb (kept c)) s = true ->
        format (VStr s) = format (VNum pos_zero))
  /\ (forall v, isNumber v = true -> format v = nf_format (toNumber v))
  /\ format VNull = "null" /\ format VUndef = "undefined"
  /\ (forall b, format (VBool b) = String_ numberToString (VBool b)).
Proof.
  split; [|split; [|split]].
  - intros v. unfold table_cell, formatNumber. cbv zeta.
    now destruct (isFinite (toNumber v)).
  - intros s H. unfold formatNumber. cbv zeta.
    now rewrite (toNumber_text_is_zero s H).
  - intros [x| | | |] H; try discriminate H. unfold formatNumber. cbv zeta.
    rewrite toNumber_number. simpl in H. now rewrite H.
  - repeat split; try now intros [].
Qed.

End FormatFacts.

(** X3 on a product name. *)
Lemma table_cell_of_text :
  table_cell blank_toString zero_format (VStr "Shoes") = "0".
Proof.
  rewrite (proj1 (table_cell_is_formatNumber blank_toString zero_format)).
  exact (proj1 (proj2 (table_cell_is_formatNumber blank_toString zero_format))
           "Shoes" eq_refl).
Defined.

(** ** Month indexes, continued *)

(** X4. [monthIndex] ignores white space around the label. *)
Theorem monthIndex_ignores_outer_space a s b :
  str_all is_space a = true -> str_all is_space b = true ->
  monthIndex (VStr (a ++ s ++ b)) = monthIndex (VStr s).
Proof.
  intros Ha Hb. cbn [monthIndex]. unfold monthIndex_str.
  now rewrite trim_spaces.
Qed.

(** X4 on a padded label. *)
Lemma monthIndex_padded_january :
  monthIndex (VStr "  Jan 2024 ") = Finite (2024 * 12).
Proof.
  exact (monthIndex_ignores_outer_space "  " "Jan 2024" " " eq_refl eq_refl).
Defined.

Lemma re_word_exact w sp y :
  w <> "" -> str_all is_letter w = true ->
  sp <> "" -> str_all is_space sp = true -> digits 4 y = true ->
  re_word (w ++ sp ++ y) = Some (w, y).
Proof.
  intros Hw Hl Hsp Hs Hy. unfold re_word. rewrite span_complete; auto.
  - destruct (String.eqb_spec w ""); [contradiction|].
    now rewrite space_year_complete.
  - destruct sp as [|c sp]; [contradiction|]. rewrite append_cons. simpl in *.
    apply andb_prop in Hs as [Hc _]. apply (space_facts c Hc).
Qed.

Lemma space_year_letter c r :
  is_letter c = true -> space_year (String c r) = None.
Proof.
  intros Hc. unfold space_year. simpl.
  now rewrite (proj1 (letter_facts c Hc)).
Qed.

Lemma re_mon3_exact a b c sp y :
  is_letter a = true -> is_letter b = true -> is_letter c = true ->
  sp <> "" -> str_all is_space sp = true -> digits 4 y = true ->
  re_mon3 (String a (String b (String c "")) ++ sp ++ y)
  = Some (String a (String b (String c "")), y).
Proof.
  intros Ha Hb Hc Hsp Hs Hy. rewrite !append_cons, append_nil. unfold re_mon3.
  rewrite Ha, Hb, Hc. simpl. now rewrite space_year_complete.
Qed.

Lemma re_mon3_long a b c d w sp y :
  is_letter d = true ->
  re_mon3 (String a (String b (String c (String d w))) ++ sp ++ y) = None.
Proof.
  intros Hd. rewrite !append_cons. unfold re_mon3.
  destruct (is_letter a && is_letter b && is_letter c); [|reflexivity].
  now rewrite space_year_letter.
Qed.

Lemma indexOf_absent l w : ~ In w l -> indexOf l w = -1.
Proof.
  unfold indexOf, findIndex. generalize 0.
  induction l as [|x l IH]; intros i H; simpl; [reflexivity|].
  destruct (String.eqb_spec w x) as [->|_]; [exfalso; apply H; now left|].
  apply IH. intros Hin. apply H. now right.
Qed.

Lemma indexOf_months3 k abbr :
  nth_error MONTHS3 k = Some abbr -> indexOf MONTHS3 abbr = Z.of_nat k.
Proof.
  intros Hk.
  do 12 (destruct k as [|k]; [injection Hk as <-; reflexivity|]).
  destruct k; discriminate Hk.
Qed.

Lemma months3_truthy k abbr :
  nth_error MONTHS3 k = Some abbr -> truthy (Some abbr) = true.
Proof.
  intros Hk.
  do 12 (destruct k as [|k]; [injection Hk as <-; reflexivity|]).
  destruct k; discriminate Hk.
Qed.

(** X5. A label of three letters, white space and a year: when the letters
    are the [k]-th abbreviation of [MONTHS3], spelled as there, the index is
    [year * 12 + k]; any other three letters, a month abbreviation in
    another case among them, count as January. *)
Theorem monthIndex_three_letters w sp y :
  String.length w = 3%nat -> str_all is_letter w = true ->
  sp <> "" -> str_all is_space sp = true -> digits 4 y = true ->
  (forall k, nth_error MONTHS3 k = Some w ->
             monthIndex (VStr (w ++ sp ++ y))
             = Finite (parseInt y * 12 + Z.of_nat k))
  /\ (~ In w MONTHS3 ->
      monthIndex (VStr (w ++ sp ++ y)) = Finite (parseInt y * 12 + 0)).
Proof.
  intros Hl Hw Hsp Hs Hy.
  assert (monthIndex_str (w ++ sp ++ y)
          = Finite (parseInt y * 12 + month_or_0 (indexOf MONTHS3 w))) as E.
  { unfold monthIndex_str.
    rewrite trim_word_year; auto; [|intros ->; discriminate Hl].
    destruct w as [|a [|b [|c [|d w]]]]; try discriminate Hl.
    simpl in Hw. apply andb_prop in Hw as [Ha Hw].
    apply andb_prop in Hw as [Hb Hw]. apply andb_prop in Hw as [Hc _].
    now rewrite re_mon3_exact. }
  cbn [monthIndex]. rewrite E. split.
  - intros k Hk. rewrite (indexOf_months3 k w Hk). unfold month_or_0.
    now destruct (Z.leb_spec 0 (Z.of_nat k)); [|lia].
  - intros Hn. now rewrite (indexOf_absent _ _ Hn).
Qed.

(** X5 on May 2024: in lower case it is read as January 2024. *)
Lemma monthIndex_may_in_lower_case :
  monthIndex (VStr "May 2024") = Finite (2024 * 12 + 4)
  /\ monthIndex (VStr "may 2024") = Finite (2024 * 12 + 0).
Proof.
  split.
  - exact (proj1 (monthIndex_three_letters "May" " " "2024" eq_refl eq_refl
                    ltac:(discriminate) eq_refl eq_refl) 4%nat eq_refl).
  - refine (proj2 (monthIndex_three_letters "may" " " "2024" eq_refl eq_refl
                     ltac:(discriminate) eq_refl eq_refl) _).
    simpl. intuition discriminate.
Defined.

Lemma monthIndex_long_word w sp y :
  (4 <= String.length w)%nat -> str_all is_letter w = true ->
  sp <> "" -> str_all is_space sp = true -> digits 4 y = true ->
  monthIndex_str (w ++ sp ++ y)
  = Finite (parseInt y * 12
            + month_or_0 (indexOf MONTHS3
                (or_empty (or_else (fullTo3 w) (Some (slice0 3 w)))))).
Proof.
  intros Hl Hw Hsp Hs Hy. unfold monthIndex_str.
  assert (w <> "") as Hne by (intros ->; simpl in Hl; lia).
  rewrite trim_word_year by auto.
  destruct w as [|a [|b [|c [|d w]]]]; try (simpl in Hl; lia).
  rewrite re_mon3_long.
  - now rewrite re_word_exact.
  - simpl in Hw. repeat (apply andb_prop in Hw as [? Hw]). assumption.
Qed.

(** [fullTo3] compares without regard to case. *)
Lemma fullTo3_ci k full w :
  nth_error MONTHS_FULL k = Some full -> toLowerCase w = toLowerCase full ->
  fullTo3 w = nth_error MONTHS3 k.
Proof.
  intros Hk H. unfold fullTo3, findIndex, MONTHS_FULL. cbn [findIndex_from].
  rewrite H.
  do 12 (destruct k as [|k]; [injection Hk as <-; reflexivity|]).
  destruct k; discriminate Hk.
Qed.

(** X6. A label of four letters or more, white space and a year: a full
    month name in any case gives its month; any other word is read by its
    first three letters, as spelled in [MONTHS3], and counts as January when
    they are no abbreviation. *)
Theorem monthIndex_longer_words w sp y :
  (4 <= String.length w)%nat -> str_all is_letter w = true ->
  sp <> "" -> str_all is_space sp = true -> digits 4 y = true ->
  (forall k full,
     nth_error MONTHS_FULL k = Some full -> toLowerCase w = toLowerCase full ->
     monthIndex (VStr (w ++ sp ++ y)) = Finite (parseInt y * 12 + Z.of_nat k))
  /\ (fullTo3 w = None ->
      (forall k, nth_error MONTHS3 k = Some (slice0 3 w) ->
         monthIndex (VStr (w ++ sp ++ y))
         = Finite (parseInt y * 12 + Z.of_nat k))
      /\ (~ In (slice0 3 w) MONTHS3 ->
          monthIndex (VStr (w ++ sp ++ y)) = Finite (parseInt y * 12 + 0))).
Proof.
  intros Hl Hw Hsp Hs Hy. cbn [monthIndex].
  rewrite (monthIndex_long_word w sp y Hl Hw Hsp Hs Hy).
  assert (forall k, month_or_0 (Z.of_nat k) = Z.of_nat k) as Hm.
  { intros k. unfold month_or_0. destruct (Z.leb_spec 0 (Z.of_nat k)); lia. }
  split; [|intros Hn; rewrite Hn; split].
  - intros k full Hk E. rewrite (fullTo3_ci k full w Hk E).
    destruct (nth_error MONTHS3 k) as [abbr|] eqn:Ea.
    + pose proof (months3_truthy k abbr Ea) as Ht.
      unfold or_else. rewrite Ht. cbn [or_empty].
      now rewrite (indexOf_months3 k abbr Ea), Hm.
    + do 12 (destruct k as [|k]; [discriminate Ea|]). destruct k; discriminate Hk.
  - intros k Hk. pose proof (months3_truthy k _ Hk) as Ht.
    unfold or_else. cbn [truthy or_empty].
    now rewrite (indexOf_months3 k _ Hk), Hm.
  - intros Hno. unfold or_else. cbn [truthy or_empty].
    now rewrite (indexOf_absent _ _ Hno).
Qed.

(** X6 on three words: a full name in upper case, a longer abbreviation,
    and a word that names no month. *)
Lemma monthIndex_september_forms :
  monthIndex (VStr "SEPTEMBER  2024") = Finite (2024 * 12 + 8)
  /\ monthIndex (VStr "Sept 2024") = Finite (2024 * 12 + 8)
  /\ monthIndex (VStr "Quarter 2024") = Finite (2024 * 12 + 0).
Proof.
  split; [|split].
  - exact (proj1 (monthIndex_longer_words "SEPTEMBER" "  " "2024"
                    ltac:(simpl; lia) eq_refl ltac:(discriminate) eq_refl eq_refl)
             8%nat "September" eq_refl eq_refl).
  - exact (proj1 (proj2 (monthIndex_longer_words "Sept" " " "2024"
                           ltac:(simpl; lia) eq_refl ltac:(discriminate)
                           eq_refl eq_refl) eq_refl) 8%nat eq_refl).
  - refine (proj2 (proj2 (monthIndex_longer_words "Quarter" " " "2024"
                            ltac:(simpl; lia) eq_refl ltac:(discriminate)
                            eq_refl eq_refl) eq_refl) _).
    simpl. intuition discriminate.
Defined.

Lemma findIndex_from_bounds p l i :
  findIndex_from i p l = -1
  \/ i <= findIndex_from i p l < i + Z.of_nat (List.length l).
Proof.
  revert i. induction l as [|x l IH]; intros i; simpl; [now left|].
  destruct (p x); [right; lia|].
  destruct (IH (i + 1)) as [H|H]; [now left|right; lia].
Qed.

Lemma month_or_0_bounds s : 0 <= month_or_0 (indexOf MONTHS3 s) <= 11.
Proof.
  unfold month_or_0, indexOf, findIndex.
  destruct (findIndex_from_bounds (String.eqb s) MONTHS3 0) as [H|H].
  - rewrite H. simpl. lia.
  - change (Z.of_nat (List.length MONTHS3)) with 12 in H.
    destruct (0 <=? findIndex_from 0 (String.eqb s) MONTHS3); lia.
Qed.

Lemma re_mon3_year t m1 m2 : re_mon3 t = Some (m1, m2) -> digits 4 m2 = true.
Proof.
  unfold re_mon3. destruct t as [|a [|b [|c r]]]; try discriminate.
  destruct (is_letter a && is_letter b && is_letter c); [|discriminate].
  destruct (space_year r) as [y|] eqn:Ey; [|discriminate]. intros [= _ <-].
  now apply space_year_sound in Ey as (sp & _ & _ & _ & Hy).
Qed.

Lemma re_word_year t m1 m2 : re_word t = Some (m1, m2) -> digits 4 m2 = true.
Proof.
  unfold re_word. destruct (span is_letter t) as [w r].
  destruct (String.eqb w ""); [discriminate|].
  destruct (space_year r) as [y|] eqn:Ey; [|discriminate]. intros [= _ <-].
  now apply space_year_sound in Ey as (sp & _ & _ & _ & Hy).
Qed.

(** X7. A finite month index lies between -1 (the text 0000-00) and
    [9999 * 12 + 98] (the text 9999-99). *)
Theorem monthIndex_range v z :
  monthIndex v = Finite z -> -1 <= z <= 9999 * 12 + 98.
Proof.
  destruct v as [x|s|b| |]; try discriminate.
  cbn [monthIndex]. unfold monthIndex_str. cbv zeta.
  destruct (re_mon3 (trim s)) as [[m1 m2]|] eqn:E1.
  { apply re_mon3_year, parseInt_4 in E1.
    pose proof (month_or_0_bounds (slice0 3 m1)) as H.
    set (q := month_or_0 _) in *. intros [= <-]. lia. }
  destruct (re_word (trim s)) as [[m1 m2]|] eqn:E2.
  { apply re_word_year, parseInt_4 in E2.
    pose proof (month_or_0_bounds
                  (or_empty (or_else (fullTo3 m1) (Some (slice0 3 m1))))) as H.
    set (q := month_or_0 _) in *. intros [= <-]. lia. }
  destruct (re_ym (trim s)) as [[m1 m2]|] eqn:E3.
  { intros [= <-]. apply re_pair_sound in E3 as (_ & H4 & H2).
    apply parseInt_4 in H4. apply parseInt_2 in H2. lia. }
  destruct (re_my (trim s)) as [[m1 m2]|] eqn:E4.
  { intros [= <-]. apply re_pair_sound in E4 as (_ & H2 & H4).
    apply parseInt_4 in H4. apply parseInt_2 in H2. lia. }
  unfold re_year. destruct (digits 4 (trim s)) eqn:E5; [|discriminate].
  intros [= <-]. apply parseInt_4 in E5. lia.
Qed.

(** X7 at both ends of the range. *)
Lemma monthIndex_range_ends :
  (monthIndex (VStr "0000-00") = Finite (-1)
   /\ -1 <= -1 <= 9999 * 12 + 98)
  /\ (monthIndex (VStr "99/9999") = Finite (9999 * 12 + 98)
      /\ -1 <= 9999 * 12 + 98 <= 9999 * 12 + 98).
Proof.
  split; (split; [reflexivity|]).
  - exact (monthIndex_range (VStr "0000-00") (-1) eq_refl).
  - exact (monthIndex_range (VStr "99/9999") (9999 * 12 + 98) eq_refl).
Defined.

Section Chronology.
Variable numberToString : number -> string.
Variable localeCompare : string -> string -> Z.

(** X8. The comparator of the sort is chronological across the two numeric
    shapes: with months from 01 to 12, a label YYYY-MM sorts before a label
    MM/YYYY exactly when its month comes earlier, and ties with it exactly
    when they name the same month. *)
Theorem compare_x_chronological y1 m1 y2 m2 :
  digits 4 y1 = true -> digits 2 m1 = true ->
  digits 4 y2 = true -> digits 2 m2 = true ->
  1 <= parseInt m1 <= 12 -> 1 <= parseInt m2 <= 12 ->
  let a := VStr (y1 ++ "-" ++ m1) in
  let b := VStr (m2 ++ "/" ++ y2) in
  let before := parseInt y1 < parseInt y2
                \/ (parseInt y1 = parseInt y2 /\ parseInt m1 < parseInt m2) in
  let same := parseInt y1 = parseInt y2 /\ parseInt m1 = parseInt m2 in
  (compare_x numberToString localeCompare a b < 0 <-> before)
  /\ (compare_x numberToString localeCompare a b = 0 <-> same).
Proof.
  intros Hy1 Hm1 Hy2 Hm2 R1 R2 a b before same. subst a b before same.
  unfold compare_x. cbn [String_ monthIndex].
  rewrite (monthIndex_year_month y1 m1 Hy1 Hm1),
    (monthIndex_month_year y2 m2 Hy2 Hm2).
  split; split; lia.
Qed.

End Chronology.

(** X8 across a change of year. *)
Lemma compare_x_december_before_january :
  compare_x blank_toString code_unit_compare (VStr "2023-12") (VStr "01/2024")
  < 0.
Proof.
  apply (compare_x_chronological blank_toString code_unit_compare
           "2023" "12" "2024" "01");
    try reflexivity; try (vm_compute; split; discriminate).
  left. vm_compute. reflexivity.
Defined.

(** ** Time-like axes, continued *)

Lemma prefix_lit_here w s r : prefix_ci w s = Some r -> lit_here w false s = true.
Proof. unfold lit_here. now intros ->. Qed.

Lemma time_word_here_lit s :
  time_word_here s = true ->
  exists w, In w time_words /\ lit_here w false s = true.
Proof.
  unfold time_word_here. intros H. apply existsb_exists in H as (w & Hw & H).
  exists w. split; [exact Hw|].
  destruct (prefix_ci w s) as [r|] eqn:E; [|discriminate].
  now apply prefix_lit_here in E.
Qed.

Lemma lit_from_here w s : lit_here w false s = true -> lit_from w false s = true.
Proof. intros H. destruct s; simpl; now rewrite H. Qed.

Lemma time_word_from_lit edge s :
  time_word_from edge s = true ->
  exists w, In w time_words /\ lit_from w false s = true.
Proof.
  revert edge. induction s as [|c s IH]; intros edge; simpl; intros H.
  - rewrite orb_false_r in H. apply andb_prop in H as [_ H].
    apply time_word_here_lit in H as (w & Hw & H). exists w. split; [exact Hw|].
    now apply lit_from_here in H.
  - apply orb_prop in H as [H|H].
    + apply andb_prop in H as [_ H].
      apply time_word_here_lit in H as (w & Hw & H). exists w.
      split; [exact Hw|]. simpl. now rewrite H.
    + apply IH in H as (w & Hw & H). exists w. split; [exact Hw|].
      simpl. rewrite H. apply orb_true_r.
Qed.

(** X9. A column name that [looksLikeTimeName] accepts matches one of the
    time patterns of [resolveAxes], unless the word it holds is year: the
    name test for a time axis is at most as wide as the choice of the x
    column, but for names with year in them. *)
Theorem time_name_matches_keyword name :
  looksLikeTimeName name = true ->
  nameMatches name timeCandidates = true \/ regex_test_i "year" name = true.
Proof.
  intros H. apply time_word_from_lit in H as (w & Hw & H).
  assert (forall p, In p ["month"; "date"; "period"; "quarter"] ->
                    lit_from p false name = true ->
                    nameMatches name timeCandidates = true) as K.
  { intros p Hp Hl. unfold nameMatches. apply existsb_exists. exists p. split.
    - simpl in Hp. simpl. tauto.
    - simpl in Hp. destruct Hp as [<-|[<-|[<-|[<-|[]]]]]; exact Hl. }
  simpl in Hw. destruct Hw as [<-|[<-|[<-|[<-|[<-|[]]]]]].
  - left. apply (K "month"); simpl; auto.
  - left. apply (K "date"); simpl; auto.
  - left. apply (K "period"); simpl; auto.
  - left. apply (K "quarter"); simpl; auto 6.
  - right. exact H.
Qed.

(** X9 on a name with year in it, which no time pattern matches. *)
Lemma time_name_fiscal_year :
  (nameMatches "fiscal_year" timeCandidates = true
   \/ regex_test_i "year" "fiscal_year" = true)
  /\ nameMatches "fiscal_year" timeCandidates = false.
Proof.
  split; [|reflexivity].
  exact (time_name_matches_keyword "fiscal_year" eq_refl).
Defined.

Lemma threshold_test :
  forallb (fun n => forallb (fun p =>
     Bool.eqb (geq (num (Z.of_nat p)) (threshold n))
              (negb (Nat.eqb p 0) && (3 * n <=? 5 * p)%nat))
     (seq 0 16)) (seq 0 16) = true.
Proof. vm_compute. reflexivity. Qed.

(** The floating-point test [parsed >= Math.ceil((n || 1) * 0.6)] on the
    counts that occur. *)
Lemma threshold_integer n p :
  (n <= 15)%nat -> (p <= 15)%nat ->
  geq (num (Z.of_nat p)) (threshold n)
  = negb (Nat.eqb p 0) && (3 * n <=? 5 * p)%nat.
Proof.
  intros Hn Hp. pose proof threshold_test as H.
  rewrite forallb_forall in H. specialize (H n ltac:(apply in_seq; lia)).
  rewrite forallb_forall in H. specialize (H p ltac:(apply in_seq; lia)).
  now apply Bool.eqb_prop in H.
Qed.

Lemma firstn_length_15 {A} (l : list A) : (List.length (firstn 15 l) <= 15)%nat.
Proof. rewrite length_firstn. lia. Qed.

Lemma filter_length_le {A} (p : A -> bool) l :
  (List.length (List.filter p l) <= List.length l)%nat.
Proof. induction l as [|a l IH]; simpl; [lia|]. destruct (p a); simpl; lia. Qed.

Section TimeLike.
Variable numberToString : number -> string.

(** X10. For a non-empty name that does not look like a time name, the axis
    is time-like exactly when at least one of the first 15 samples parses as
    a month and the samples that parse are at least three fifths of those
    looked at; with no sample at all it is not. *)
Theorem isTimeLikeAxis_three_fifths name samples :
  name <> "" -> looksLikeTimeName name = false ->
  (isTimeLikeAxis numberToString (Some name) samples = true
   <-> (0 < parsed numberToString samples
        /\ 3 * checked samples <= 5 * parsed numberToString samples)%nat).
Proof.
  intros Hne Hl. unfold isTimeLikeAxis. rewrite (truthy_nonempty name Hne).
  cbn [negb or_empty]. rewrite Hl. cbv zeta.
  rewrite threshold_integer.
  - rewrite andb_true_iff, negb_true_iff, Nat.eqb_neq, Nat.leb_le.
    unfold parsed, checked, parses. lia.
  - apply firstn_length_15.
  - pose proof (filter_length_le (parses numberToString) (firstn 15 samples)) as H1.
    pose proof (firstn_length_15 samples) as H2. unfold parses in H1. lia.
Qed.

End TimeLike.

(** X10 on five labels of which three parse. *)
Lemma isTimeLikeAxis_three_of_five :
  isTimeLikeAxis blank_toString (Some "label")
    (map VStr ["Jan 2024"; "Feb 2024"; "2024"; "n/a"; "total"]) = true.
Proof.
  apply (isTimeLikeAxis_three_fifths blank_toString "label");
    [discriminate|reflexivity|].
  vm_compute. split; repeat constructor.
Defined.

(** ** Axis resolution, continued *)

Section ResolveMore.
Variable numberToString : number -> string.

Lemma isTimeLikeAxis_firstn x l :
  isTimeLikeAxis numberToString x (firstn 15 l) = isTimeLikeAxis numberToString x l.
Proof. unfold isTimeLikeAxis. now rewrite firstn_firstn. Qed.

Lemma x_samples_firstn rows x :
  firstn 15 (x_samples rows x) = map (fun r => get_key r x) (firstn 15 rows).
Proof. unfold x_samples. now rewrite firstn_map, firstn_firstn. Qed.

Lemma swaps_firstn rows x s :
  swaps numberToString (firstn 15 rows) x s = swaps numberToString rows x s.
Proof.
  unfold swaps.
  rewrite <- (isTimeLikeAxis_firstn x (x_samples rows x)).
  rewrite <- (isTimeLikeAxis_firstn x (x_samples (firstn 15 rows) x)).
  rewrite !x_samples_firstn, firstn_firstn. reflexivity.
Qed.

(** X11. [resolveAxes] reads the first 15 rows and no more: the 20 samples
    it takes are cut to 15 by [isTimeLikeAxis], and all the rest comes from
    the first row. *)
Theorem resolve_first_15_rows rows :
  resolveAxes numberToString rows = resolveAxes numberToString (firstn 15 rows).
Proof.
  destruct rows as [|r rows]; [reflexivity|].
  change (firstn 15 (r :: rows)) with (r :: firstn 14 rows).
  rewrite !resolve_cons.
  change (r :: firstn 14 rows) with (firstn 15 (r :: rows)).
  destruct (candidates r) as [[x s] y]. now rewrite swaps_firstn.
Qed.

End ResolveMore.

Lemma or_else_None_truthy a : null_or_truthy (or_else a None).
Proof. unfold or_else, null_or_truthy. destruct (truthy a) eqn:E; auto. Qed.

Lemma or_else_truthy a b : null_or_truthy b -> null_or_truthy (or_else a b).
Proof. unfold or_else, null_or_truthy. destruct (truthy a) eqn:E; auto. Qed.

(** No role is the empty name. *)
Lemma candidates_truthy r :
  null_or_truthy (fst (fst (candidates r)))
  /\ null_or_truthy (snd (fst (candidates r)))
  /\ null_or_truthy (snd (candidates r)).
Proof.
  unfold candidates. cbn [fst snd]. repeat split.
  - destruct (negb (truthy (find_key _ (keys r)))) eqn:E.
    + do 2 apply or_else_truthy. apply or_else_None_truthy.
    + right. now apply negb_false_iff in E.
  - set (x := if negb (truthy _) then _ else _).
    set (geo := find_key (fun c => nameMatches c geoPrefs) (keys r)).
    set (prod := find_key (fun c => nameMatches c productPrefs) (keys r)).
    destruct (truthy x && truthy prod && key_neq prod x) eqn:E1.
    { right. apply andb_prop in E1 as [E1 _]. now apply andb_prop in E1. }
    destruct (truthy x && truthy geo && key_neq geo x) eqn:E2.
    { right. apply andb_prop in E2 as [E2 _]. now apply andb_prop in E2. }
    apply or_else_None_truthy.
  - destruct (negb (truthy (find_key _ (keys r)))) eqn:E.
    + apply or_else_None_truthy.
    + right. now apply negb_false_iff in E.
Qed.

Lemma candidates_metric_is_numeric r c :
  snd (candidates r) = Some c -> isNum r c = true.
Proof.
  unfold candidates. cbn [snd].
  destruct (negb (truthy (find_key _ (keys r)))) eqn:E.
  - intros H. apply or_else_None in H as [H _]. apply first_Some in H.
    now apply filter_In in H.
  - intros H. apply find_key_Some in H as [_ H]. now apply andb_prop in H.
Qed.

Section ResolveMulti.
Variable numberToString : number -> string.

Lemma resolve_keys_truthy rows :
  null_or_truthy (xKey (resolveAxes numberToString rows))
  /\ null_or_truthy (yKey (resolveAxes numberToString rows)).
Proof.
  destruct rows as [|r rows]; [split; now left|].
  rewrite resolve_cons. pose proof (candidates_truthy r) as (Tx & Ts & Ty).
  destruct (candidates r) as [[x s] y]. cbn [fst snd] in *.
  now destruct (swaps _ _ x s).
Qed.

(** X12. On a non-empty result, a metric that is chosen is a non-empty
    column name whose value in the first row is numeric, and the result is
    multi-series exactly when all three roles are found: the other two
    conditions of the code, that x and series differ and that the metric is
    numeric, always hold then. *)
Theorem resolve_isMulti_iff r rows :
  let a := resolveAxes numberToString (r :: rows) in
  (forall c, yKey a = Some c -> c <> "" /\ isNum r c = true)
  /\ (isMulti a = true
      <-> xKey a <> None /\ seriesKey a <> None /\ yKey a <> None).
Proof.
  cbv zeta. rewrite resolve_cons.
  pose proof (candidates_truthy r) as (Tx & Ts & Ty).
  pose proof (candidates_series r) as [_ Hd].
  pose proof (candidates_metric_is_numeric r) as Hy.
  destruct (candidates r) as [[x s] y]. cbn [fst snd] in *.
  assert (forall k, null_or_truthy k -> k <> None -> truthy k = true) as T.
  { intros k [->|H] Hk; [contradiction|exact H]. }
  assert (forall x' s', keys_differ x' s' -> x' <> None -> s' <> None ->
                        key_neq x' s' = true) as D.
  { intros [a|] [b|] H Ha Hb; try contradiction. simpl in *.
    destruct (String.eqb_spec a b); [contradiction|reflexivity]. }
  assert (keys_differ s x) as Hd' by (destruct x, s; simpl in *; auto).
  split.
  - destruct (swaps _ _ x s); cbn [yKey]; intros c ->; (split; [|now apply Hy]);
      destruct Ty as [Ty|Ty]; try discriminate Ty;
      apply truthy_Some in Ty as (c' & [= <-] & Hc); exact Hc.
  - destruct (swaps _ _ x s); cbn [xKey seriesKey yKey isMulti]; split.
    + intros H. repeat (apply andb_prop in H as [H ?]).
      repeat split; intros ->; discriminate.
    + intros (Hs & Hx & Hyn). rewrite (T s), (T x), (T y), (D s x) by auto.
      destruct y as [c|]; [|contradiction]. cbn [get_key]. apply (Hy c eq_refl).
    + intros H. repeat (apply andb_prop in H as [H ?]).
      repeat split; intros ->; discriminate.
    + intros (Hx & Hs & Hyn). rewrite (T s), (T x), (T y), (D x s) by auto.
      destruct y as [c|]; [|contradiction]. cbn [get_key]. apply (Hy c eq_refl).
Qed.

End ResolveMulti.

(** X12 on the sales rows, where the three roles are found. *)
Lemma resolve_isMulti_sales :
  isMulti (resolveAxes blank_toString sales_rows) = true.
Proof.
  apply (proj2 (resolve_isMulti_iff blank_toString _ _)).
  repeat split; discriminate.
Defined.

Section XFallback.
Variable numberToString : number -> string.

Lemma candidates_x_fallback r c :
  (forall col, In col (keys r) -> nameMatches col timeCandidates = false) ->
  (forall col, In col (keys r) -> nameMatches col geoPrefs = false) ->
  fst (fst (candidates r)) = Some c ->
  In c (keys r) /\ isNum r c = false.
Proof.
  intros Ht Hg. unfold candidates. cbn [fst snd].
  rewrite (proj2 (find_key_None _ (keys r)) Ht).
  rewrite (proj2 (find_key_None (fun c => nameMatches c geoPrefs) (keys r)) Hg).
  cbn [truthy negb]. unfold or_else at 1. cbn [truthy].
  intros H.
  assert (In c (List.filter (fun c => negb (isNum r c)) (keys r))) as Hin.
  { apply or_else_Some in H as [H|H].
    - now apply find_key_Some in H.
    - apply or_else_None in H as [H _]. now apply first_Some in H. }
  apply filter_In in Hin as [Hin Hn]. split; [exact Hin|].
  now apply negb_true_iff in Hn.
Qed.

(** X26. When no column of the first record is named like a time or a
    geography column, the x column, if one is found, is a column whose value
    in the first record is not numeric; as text without digits, periods and
    minus signs is numeric, it is never a column of such text. *)
Theorem resolve_x_fallback r rows c :
  (forall col, In col (keys r) -> nameMatches col timeCandidates = false) ->
  (forall col, In col (keys r) -> nameMatches col geoPrefs = false) ->
  xKey (resolveAxes numberToString (r :: rows)) = Some c ->
  In c (keys r) /\ isNum r c = false
  /\ (forall s, get r c = VStr s -> str_all (fun a => negb (kept a)) s = false).
Proof.
  intros Ht Hg. rewrite resolve_cons.
  pose proof (candidates_x_fallback r) as Hx.
  pose proof (candidates_series r) as [Hs _].
  destruct (candidates r) as [[x s] y]. cbn [fst snd] in *.
  assert (swaps numberToString (r :: rows) x s = false) as ->.
  { unfold swaps. destruct s as [cs|]; cbn [or_empty key_in] in *.
    - rewrite (Hg cs Hs). apply andb_false_r.
    - apply andb_false_r. }
  cbn [xKey]. intros ->. destruct (Hx c Ht Hg eq_refl) as [Hin Hn].
  split; [exact Hin|]. split; [exact Hn|].
  intros t Ht'. destruct (str_all _ t) eqn:E; [|reflexivity].
  unfold isNum in Hn. rewrite Ht', (toNumber_text_is_zero t E) in Hn.
  discriminate Hn.
Qed.

End XFallback.

(** X26 on a record with a column of dates and a column of names: the
    dates are the x column, and the names count as numeric. *)
Lemma resolve_x_fallback_dated :
  xKey (resolveAxes blank_toString [dated_totals]) = Some "label"
  /\ isNum dated_totals "label" = false
  /\ isNum dated_totals "name" = true.
Proof.
  split; [reflexivity|]. split; [|reflexivity].
  refine (proj1 (proj2 (resolve_x_fallback blank_toString dated_totals []
                          "label" _ _ eq_refl))).
  - intros col [<-|[<-|[<-|[]]]]; reflexivity.
  - intros col [<-|[<-|[<-|[]]]]; reflexivity.
Defined.

(** ** Pivoting, continued *)

Lemma first_seen_length l : (List.length (first_seen l) <= List.length l)%nat.
Proof.
  induction l as [|a l IH]; simpl; [lia|].
  pose proof (filter_length_le (fun b => negb (same_value_zero a b))
                (first_seen l)). lia.
Qed.

Lemma first_seen_covers a l : In a l -> In (norm_key a) (first_seen l).
Proof.
  induction l as [|b l IH]; simpl; [intros []|]. intros [->|H]; [now left|].
  destruct (same_value_zero b a) eqn:E.
  - left. now apply same_value_zero_spec.
  - right. apply filter_In. split; [now apply IH|].
    now rewrite same_norm_r, E.
Qed.

Lemma ForallOrdPairs_filter {A} (R : A -> A -> Prop) (p : A -> bool) l :
  ForallOrdPairs R l -> ForallOrdPairs R (List.filter p l).
Proof.
  induction 1 as [|a l Ha Hl IH]; simpl; [constructor|].
  destruct (p a); [|exact IH]. constructor; [|exact IH].
  apply List.Forall_forall. intros b Hb. apply filter_In in Hb as [Hb _].
  rewrite List.Forall_forall in Ha. now apply Ha.
Qed.

Lemma first_seen_distinct l : distinct_values (first_seen l).
Proof.
  induction l as [|a l IH]; simpl; [constructor|]. constructor.
  - apply List.Forall_forall. intros b Hb. apply filter_In in Hb as [_ Hb].
    rewrite same_norm_l. now apply negb_true_iff.
  - now apply ForallOrdPairs_filter.
Qed.

Lemma find_none_all {A} (p : A -> bool) l :
  (forall a, In a l -> p a = false) -> List.find p l = None.
Proof.
  induction l as [|a l IH]; simpl; intros H; [reflexivity|].
  rewrite (H a) by now left. apply IH. intros b Hb. apply H. now right.
Qed.

Section PivotMore.
Variable numberToString : number -> string.
Variable localeCompare : string -> string -> Z.
Variables (rows : list record) (xKey seriesKey yKey : string).

Local Abbreviation pivot :=
  (pivotData numberToString localeCompare rows xKey seriesKey yKey).
Local Abbreviation seen_xs := (first_seen (map (fun r => get r xKey) rows)).

(** No element of the pivoted data is [undefined]. *)
Lemma pivot_data_defined : Forall (fun ow => ow <> None) (data pivot).
Proof.
  pose proof (pivot_data numberToString localeCompare xKey seriesKey yKey rows) as H.
  induction H as [|x ow l l' (w & -> & _) _ IH]; constructor;
    [discriminate|exact IH].
Qed.

(** X13. The pivoted data has one row for each distinct x value, none of
    them [undefined], and so no more rows than the input. *)
Theorem pivot_one_row_per_x :
  let p := pivotData numberToString localeCompare rows xKey seriesKey yKey in
  List.length (data p)
  = List.length (first_seen (map (fun r => get r xKey) rows))
  /\ Forall (fun ow => ow <> None) (data p)
  /\ (List.length (data p) <= List.length rows)%nat.
Proof.
  cbv zeta.
  pose proof (pivot_data numberToString localeCompare xKey seriesKey yKey rows) as H.
  assert (List.length (data pivot) = List.length seen_xs) as E.
  { apply Forall2_length in H. rewrite <- H. symmetry.
    apply Permutation_length, sort_perm. }
  split; [exact E|]. split; [apply pivot_data_defined|].
  rewrite E. pose proof (first_seen_length (map (fun r => get r xKey) rows)) as L.
  now rewrite length_map in L.
Qed.

(** X14. The series list holds no value twice, holds the series value of
    every row (with -0 as 0), and holds the series value of some row
    only. *)
Theorem pivot_series_distinct :
  distinct_values (series pivot)
  /\ (forall r, In r rows -> In (norm_key (get r seriesKey)) (series pivot))
  /\ (forall b, In b (series pivot) ->
        exists r, In r rows /\ same_value_zero (get r seriesKey) b = true).
Proof.
  rewrite pivot_series. split; [apply first_seen_distinct|]. split.
  - intros r Hr. apply first_seen_covers.
    exact (in_map (fun r => get r seriesKey) rows r Hr).
  - intros b Hb. apply first_seen_In in Hb as (a & Ha & E).
    apply in_map_iff in Ha as (r & <- & Hr). now exists r.
Qed.

(** X15. The wide row of an x value holds that value under the x key,
    unless a row with that x value has a series value whose name is the x
    key: the cell written for it then replaces the x value by a number. *)
Theorem pivot_x_field :
  Forall2
    (fun x ow =>
       exists w, ow = Some w
         /\ ((forall r, In r rows -> has_x xKey x r = true ->
                        field_of numberToString seriesKey r <> xKey) ->
             exists v, w !! xKey = Some v /\ same_value_zero v x = true)
         /\ ((exists r, In r rows /\ has_x xKey x r = true
                        /\ field_of numberToString seriesKey r = xKey) ->
             exists n, w !! xKey = Some (VNum n)))
    (sort_xs numberToString localeCompare seen_xs) (data pivot).
Proof.
  pose proof (pivot_data numberToString localeCompare xKey seriesKey yKey rows) as H.
  assert (forall x, In x (sort_xs numberToString localeCompare seen_xs) ->
                    exists r, In r rows /\ has_x xKey x r = true) as Hx.
  { intros x Hin. apply (Permutation_in _ (Permutation_sym (sort_perm _ _))) in Hin.
    apply first_seen_In in Hin as (a & Ha & E).
    apply in_map_iff in Ha as (r & <- & Hr). now exists r. }
  induction H as [|x ow l l' (w & -> & Hw) _ IH]; constructor.
  - exists w. split; [reflexivity|]. rewrite Hw. unfold expected_field.
    rewrite (lands_xKey xKey). split.
    + intros Hno.
      assert (find_last (fun r => has_x xKey x r
                && String.eqb (field_of numberToString seriesKey r) xKey) rows
              = None) as ->.
      { unfold find_last. apply find_none_all. intros r Hr. rewrite <- in_rev in Hr.
        destruct (has_x xKey x r) eqn:E; [|reflexivity]. simpl.
        apply String.eqb_neq. now apply Hno. }
      rewrite String.eqb_refl.
      destruct (Hx x ltac:(now left)) as (r & Hr & E).
      destruct (List.find (has_x xKey x) rows) as [r'|] eqn:Ef.
      * apply find_some in Ef as [_ Ef]. exists (get r' xKey).
        split; [reflexivity|exact Ef].
      * now rewrite (find_none _ _ Ef r Hr) in E.
    + intros (r & Hr & E & Ek).
      destruct (find_last _ rows) as [r'|] eqn:Ef; [eexists; reflexivity|].
      unfold find_last in Ef. rewrite in_rev in Hr.
      pose proof (find_none _ _ Ef r Hr) as Hn. cbv beta in Hn.
      now rewrite E, Ek, String.eqb_refl in Hn.
  - apply IH. intros y Hy. apply Hx. now right.
Qed.

(** X25. Every field of a wide row other than the x field holds a finite
    number: a metric that is missing or not numeric shows as 0, never as NaN
    or as text. *)
Theorem pivot_cells_finite :
  Forall
    (fun ow =>
       exists w, ow = Some w
         /\ forall k v, k <> xKey -> w !! k = Some v ->
              exists n, v = VNum n /\ isFinite n = true)
    (data (pivotData numberToString localeCompare rows xKey seriesKey yKey)).
Proof.
  pose proof (pivot_data numberToString localeCompare xKey seriesKey yKey rows) as H.
  induction H as [|x ow l l' (w & -> & Hw) _ IH]; constructor; [|exact IH].
  exists w. split; [reflexivity|]. intros k v Hk. rewrite Hw.
  unfold expected_field. destruct (lands xKey k); [|discriminate].
  destruct (find_last _ rows) as [r|].
  - intros [= <-]. unfold cell_of. cbv zeta.
    destruct (isFinite (toNumber (get r yKey))) eqn:E; eauto.
  - destruct (String.eqb_spec k xKey); [contradiction|discriminate].
Qed.

End PivotMore.

(** A row whose series value is the name of the x column loses its x
    value. *)
Lemma pivot_x_field_clash :
  data (pivotData blank_toString code_unit_compare clash_rows "month" "kind" "n")
  = [Some {[ "month" := VNum (num 3) ]}].
Proof. vm_compute. reflexivity. Qed.

(** ** The chart renderer *)

Lemma all_defined_some {A} (l : list (option A)) :
  Forall (fun o => o <> None) l -> exists l', all_defined l = Some l'.
Proof.
  induction 1 as [|[a|] l Ha _ [l' IH]]; simpl; [eauto| |contradiction].
  rewrite IH. simpl. eauto.
Qed.

Section RenderFacts.
Variable numberToString : number -> string.
Variable localeCompare : string -> string -> Z.

Local Abbreviation render := (renderChart numberToString localeCompare).
Local Abbreviation resolve := (resolveAxes numberToString).
Local Abbreviation x_of := (used_x numberToString).
Local Abbreviation y_of := (used_y numberToString).

(** The branches of [renderChart]. *)
Lemma renderChart_cases rows xk yk type :
  let ex := x_of rows xk in
  let ey := y_of rows yk in
  (truthy ex && truthy ey = false /\ render rows xk yk type = AxesUnresolved)
  \/ (truthy ex = true /\ truthy ey = true
      /\ isMulti (resolve rows) = true
      /\ exists wide bars,
           (render rows xk yk type = TimeBars wide (key_name ex) bars
            /\ type <> "line")
           \/ (render rows xk yk type = TimeLines wide (key_name ex) bars
               /\ type = "line")
           \/ render rows xk yk type = CategoryBars wide (key_name ex) bars)
  \/ (truthy ex = true /\ truthy ey = true
      /\ isMulti (resolve rows) = false
      /\ render rows xk yk type
         = if String.eqb type "bar"
           then SingleBar rows (key_name ex) (key_name ey)
           else if String.eqb type "line"
           then SingleLine rows (key_name ex) (key_name ey)
           else if String.eqb type "pie"
           then SinglePie rows (key_name ex) (key_name ey)
           else NoChart).
Proof.
  cbv zeta. unfold used_x, used_y, renderChart.
  destruct (resolve rows) as [rx sk ry multi] eqn:Er. cbn [xKey yKey isMulti].
  destruct (truthy (or_else xk rx)) eqn:Ex; [|left; now split].
  destruct (truthy (or_else yk ry)) eqn:Ey; [|left; now split].
  cbn [negb orb andb]. right. destruct multi.
  - left. repeat split.
    pose proof (pivot_data_defined numberToString localeCompare rows
                  (key_name (or_else xk rx)) (key_name sk)
                  (key_name (or_else yk ry))) as Hd.
    destruct (pivotData _ _ rows _ _ _) as [wide series]. cbn [data] in Hd.
    destruct (all_defined_some wide Hd) as [l ->].
    destruct (isTimeLikeAxis _ _ _); cbn [andb];
      destruct (String.eqb_spec type "line"); cbn [negb]; eauto 8.
  - right. now repeat split.
Qed.

(** X16. On rows that are all objects, [renderChart] never ends in its
    [catch] branch: no wide row it reads a property of is [undefined]. *)
Theorem renderChart_never_fails rows xk yk type :
  is_failure (render rows xk yk type) = false.
Proof.
  destruct (renderChart_cases rows xk yk type)
    as [[_ ->]|[(_ & _ & _ & w & b & [[-> _]|[[-> _]| ->]])|(_ & _ & _ & ->)]];
    try reflexivity.
  now repeat destruct (String.eqb _ _).
Qed.

(** X17. A multi-series result whose keys resolve is always drawn as a
    multi-series chart on the x key in use, whatever the type asked for: a
    pie is never drawn for it, and lines are drawn only for the type line. *)
Theorem renderChart_multi_series rows xk yk type :
  isMulti (resolve rows) = true ->
  truthy (x_of rows xk) = true -> truthy (y_of rows yk) = true ->
  let c := render rows xk yk type in
  is_multi_chart c = true
  /\ chart_x c = Some (key_name (x_of rows xk))
  /\ (is_lines c = true -> type = "line").
Proof.
  intros Hm Hx Hy c. subst c.
  destruct (renderChart_cases rows xk yk type)
    as [[H _]|[(_ & _ & _ & w & b & [[-> Ht]|[[-> Ht]| ->]])|(_ & _ & H & _)]];
    try (rewrite Hx, Hy in H; discriminate H); try congruence;
    cbn; repeat split; auto; discriminate.
Qed.

(** X18. Without explicit keys, the axes are reported as unresolved exactly
    when [resolveAxes] finds no x column or no metric; so they are on an
    empty result. *)
Theorem renderChart_unresolved rows type :
  (renderChart numberToString localeCompare rows None None type = AxesUnresolved
   <-> xKey (resolveAxes numberToString rows) = None
       \/ yKey (resolveAxes numberToString rows) = None)
  /\ renderChart numberToString localeCompare [] None None type = AxesUnresolved.
Proof.
  split; [|reflexivity].
  pose proof (resolve_keys_truthy numberToString rows) as [Tx Ty].
  assert (forall k, null_or_truthy k -> (truthy k = false <-> k = None)) as T.
  { intros k [->|H]; [tauto|]. rewrite H. split; [discriminate|].
    intros ->. discriminate H. }
  destruct (renderChart_cases rows None None type)
    as [[H E]|[(Hx & Hy & _ & w & b & [[E _]|[[E _]| E]])|(Hx & Hy & _ & E)]];
    unfold used_x, used_y, or_else in *; cbn [truthy] in *; rewrite E.
  - apply andb_false_iff in H. rewrite !T in H by assumption. tauto.
  - split; [discriminate|]. intros [H|H]; rewrite H in *; discriminate.
  - split; [discriminate|]. intros [H|H]; rewrite H in *; discriminate.
  - split; [discriminate|]. intros [H|H]; rewrite H in *; discriminate.
  - split; [now repeat destruct (String.eqb _ _)|].
    intros [H|H]; rewrite H in *; discriminate.
Qed.

(** X19. The chart of a message is drawn on the first column of the first
    record as x, whatever x column [resolveAxes] chose: a multi-series chart
    when the result is multi-series, and else the bar, line or pie chart of
    the type asked for, with the second column as y. Nothing is drawn
    exactly when the result is single-series and the type is none of the
    three, which a message without a chart type, drawn as bars, never is.
    With two named columns the axes are never reported as unresolved. *)
Theorem message_chart_first_columns r rows c0 c1 cols ct :
  keys r = c0 :: c1 :: cols -> c0 <> "" -> c1 <> "" ->
  let type := key_name (or_else ct (Some "bar")) in
  let multi := isMulti (resolveAxes numberToString (r :: rows)) in
  exists ch,
    message_chart numberToString localeCompare (r :: rows) ct = Some ch
    /\ ch <> AxesUnresolved /\ is_failure ch = false
    /\ (ch = NoChart \/ chart_x ch = Some c0)
    /\ (is_multi_chart ch = false -> ch = NoChart \/ chart_y ch = Some c1)
    /\ (ch = NoChart <-> multi = false /\ known_type type = false)
    /\ is_multi_chart ch = multi
    /\ (multi = false ->
        ch = if String.eqb type "bar" then SingleBar (r :: rows) c0 c1
             else if String.eqb type "line" then SingleLine (r :: rows) c0 c1
             else if String.eqb type "pie" then SinglePie (r :: rows) c0 c1
             else NoChart)
    /\ (truthy ct = false -> ch <> NoChart).
Proof.
  intros Hk H0 H1 type multi. eexists. split; [reflexivity|].
  rewrite Hk. cbn [nth_error].
  assert (truthy ct = false -> String.eqb type "bar" = true) as Hbar.
  { intros Hct. subst type. unfold or_else. now rewrite Hct. }
  fold type. clearbody type.
  assert (x_of (r :: rows) (Some c0) = Some c0) as Ex
    by (unfold used_x, or_else; now rewrite (truthy_nonempty c0 H0)).
  assert (y_of (r :: rows) (Some c1) = Some c1) as Ey
    by (unfold used_y, or_else; now rewrite (truthy_nonempty c1 H1)).
  destruct (renderChart_cases (r :: rows) (Some c0) (Some c1) type)
    as [[H E]|[(Hx & Hy & Hm & w & b & [[E _]|[[E _]| E]])
              |(Hx & Hy & Hm & E)]];
    rewrite Ex, Ey in *; cbn [key_name] in E.
  - rewrite (truthy_nonempty c0 H0), (truthy_nonempty c1 H1) in H. discriminate.
  - subst multi. rewrite E, Hm. cbn.
    repeat split; auto; try discriminate;
      try (intros [? _]; discriminate); intros ?; discriminate.
  - subst multi. rewrite E, Hm. cbn.
    repeat split; auto; try discriminate;
      try (intros [? _]; discriminate); intros ?; discriminate.
  - subst multi. rewrite E, Hm. cbn.
    repeat split; auto; try discriminate;
      try (intros [? _]; discriminate); intros ?; discriminate.
  - subst multi. rewrite E, Hm. unfold known_type.
    destruct (String.eqb type "bar") eqn:Eb;
      [|destruct (String.eqb type "line") eqn:El;
        [|destruct (String.eqb type "pie") eqn:Ep]]; cbn;
      repeat split; auto; try discriminate;
      try (intros [_ ?]; discriminate).
    intros Hct. pose proof (Hbar Hct). congruence.
Qed.

End RenderFacts.

(** X16 on the sales rows. *)
Lemma renderChart_sales_does_not_fail :
  is_failure (renderChart blank_toString code_unit_compare sales_rows
                          None None "bar") = false.
Proof.
  exact (renderChart_never_fails blank_toString code_unit_compare sales_rows
           None None "bar").
Defined.

(** X17 on the sales rows: asked for a pie, the renderer draws a
    multi-series chart on the months. *)
Lemma renderChart_pie_of_sales :
  is_multi_chart (renderChart blank_toString code_unit_compare sales_rows
                              None None "pie") = true
  /\ chart_x (renderChart blank_toString code_unit_compare sales_rows
                          None None "pie") = Some "month"
  /\ (is_lines (renderChart blank_toString code_unit_compare sales_rows
                            None None "pie") = true -> "pie" = "line").
Proof.
  exact (renderChart_multi_series blank_toString code_unit_compare sales_rows
           None None "pie" eq_refl eq_refl eq_refl).
Defined.

(** X19 on the sales rows, whose first column is the region where
    [resolveAxes] chooses the month: a multi-series chart on the regions. *)
Lemma message_chart_of_sales :
  xKey (resolveAxes blank_toString sales_rows) = Some "month"
  /\ exists ch,
       message_chart blank_toString code_unit_compare sales_rows None = Some ch
       /\ ch <> AxesUnresolved /\ is_failure ch = false
       /\ (ch = NoChart \/ chart_x ch = Some "region")
       /\ (is_multi_chart ch = false -> ch = NoChart \/ chart_y ch = Some "month")
       /\ (ch = NoChart
           <-> isMulti (resolveAxes blank_toString sales_rows) = false
               /\ known_type "bar" = false)
       /\ is_multi_chart ch = true
       /\ (isMulti (resolveAxes blank_toString sales_rows) = false ->
           ch = SingleBar sales_rows "region" "month")
       /\ (truthy None = false -> ch <> NoChart).
Proof.
  split; [reflexivity|].
  refine (message_chart_first_columns blank_toString code_unit_compare
            (hd [] sales_rows) (tl sales_rows)
            "region" "month" ["revenue"] None eq_refl _ _); discriminate.
Defined.

(** ** Query history *)

Lemma firstn_200_cons {A} (a : A) l :
  firstn 200 (a :: l) = a :: firstn 199 l.
Proof. reflexivity. Qed.

(** X20. [addToHistory] leaves the history alone for a text of white space
    only; any other text goes first, trimmed, before the 199 newest entries
    of the history; a history of at most 200 entries stays so. *)
Theorem addToHistory_newest_first uid now text prev :
  (str_all is_space text = true -> addToHistory uid now text prev = prev)
  /\ (str_all is_space text = false ->
      addToHistory uid now text prev
      = {| entry_id := uid; entry_text := trim text; entry_ts := now |}
        :: firstn 199 prev)
  /\ (List.length (addToHistory uid now text prev)
      <= Nat.max 200 (List.length prev))%nat
  /\ ((List.length prev <= 200)%nat ->
      (List.length (addToHistory uid now text prev) <= 200)%nat).
Proof.
  unfold addToHistory. repeat split.
  - intros H. now rewrite (trim_blank text H).
  - intros H. now rewrite (truthy_nonempty _ (trim_nonblank text H)).
  - destruct (negb _); [lia|]. rewrite length_firstn. lia.
  - intros H. destruct (negb _); [lia|]. rewrite length_firstn. lia.
Qed.

(** X20 on a query with spaces around it, and on a blank one. *)
Lemma addToHistory_example :
  addToHistory "2-def" 2 " top products " [old_entry]
  = [{| entry_id := "2-def"; entry_text := "top products"; entry_ts := 2 |};
     old_entry]
  /\ addToHistory "2-def" 2 "   " [old_entry] = [old_entry].
Proof.
  split.
  - exact (proj1 (proj2 (addToHistory_newest_first "2-def" 2 " top products "
                           [old_entry])) eq_refl).
  - exact (proj1 (addToHistory_newest_first "2-def" 2 "   " [old_entry]) eq_refl).
Defined.

Lemma filter_all {A} (p : A -> bool) l :
  (forall a, In a l -> p a = true) -> List.filter p l = l.
Proof.
  induction l as [|a l IH]; simpl; intros H; [reflexivity|].
  rewrite (H a) by now left. f_equal. apply IH. intros b Hb. apply H. now right.
Qed.

Lemma in_firstn {A} (a : A) n l : In a (firstn n l) -> In a l.
Proof.
  revert l. induction n as [|n IH]; intros [|b l]; simpl; try tauto.
  intros [H|H]; [now left|right; now apply IH].
Qed.

(** X21. Deleting the entry just added, when its id is new, gives back the
    199 newest entries of the history: the history itself when it had fewer
    than 200 entries, and else one entry less, since adding dropped the
    oldest. *)
Theorem add_then_delete uid now text prev :
  str_all is_space text = false ->
  (forall h, In h prev -> entry_id h <> uid) ->
  deleteHistoryItem uid (addToHistory uid now text prev) = firstn 199 prev
  /\ ((List.length prev < 200)%nat ->
      deleteHistoryItem uid (addToHistory uid now text prev) = prev).
Proof.
  intros Hb Hfresh. pose proof (trim_nonblank text Hb) as Ht.
  assert (deleteHistoryItem uid (addToHistory uid now text prev)
          = firstn 199 prev) as E.
  { unfold addToHistory. rewrite (truthy_nonempty _ Ht). cbn [negb].
    rewrite firstn_200_cons. unfold deleteHistoryItem.
    cbn [List.filter entry_id].
    rewrite String.eqb_refl. cbn [negb]. apply filter_all.
    intros h Hh. apply negb_true_iff, String.eqb_neq, Hfresh.
    now apply in_firstn in Hh. }
  split; [exact E|]. intros Hl. rewrite E. apply firstn_all2. lia.
Qed.

(** X21 on a history of one entry. *)
Lemma add_then_delete_example :
  deleteHistoryItem "2-def" (addToHistory "2-def" 2 " top products " [old_entry])
  = [old_entry].
Proof.
  refine (proj2 (add_then_delete "2-def" 2 " top products " [old_entry]
                   eq_refl _) _).
  - intros h [<-|[]]. discriminate.
  - simpl. lia.
Defined.

(** ** Conversation messages *)

Lemma find_index_app_skip {A} (p : A -> bool) l a l' :
  (forall b, In b l -> p b = false) -> p a = true ->
  find_index p (l ++ a :: l') = Some (List.length l).
Proof.
  intros Hl Ha. induction l as [|b l IH]; simpl.
  - now rewrite Ha.
  - rewrite (Hl b) by now left. rewrite IH; [reflexivity|].
    intros c Hc. apply Hl. now right.
Qed.

Lemma find_index_none {A} (p : A -> bool) l :
  (forall b, In b l -> p b = false) -> find_index p l = None.
Proof.
  induction l as [|b l IH]; simpl; intros H; [reflexivity|].
  rewrite (H b) by now left. rewrite IH; [reflexivity|].
  intros c Hc. apply H. now right.
Qed.

Section ConversationFacts.
Context {R : Type}.
Implicit Types (m : message R) (prev : list (message R)).

(** X22. A UI action changes the last message of the conversation that is
    a bot message with results, and that message only: its chart type and
    colour where the action names them. When no message has results the note
    is appended and nothing else changes. *)
Theorem applyUiAction_last_result action note prev :
  (forall pre m post,
     prev = (pre ++ m :: post)%list -> is_result m = true ->
     (forall m', In m' post -> is_result m' = false) ->
     applyUiActionToLastResult action note prev
     = (pre ++ with_action action m :: post)%list)
  /\ ((forall m, In m prev -> is_result m = false) ->
      applyUiActionToLastResult action note prev = (prev ++ [note])%list).
Proof.
  split.
  - intros pre m post -> Hm Hpost. unfold applyUiActionToLastResult.
    rewrite rev_app_distr. simpl. rewrite <- app_assoc. simpl.
    rewrite find_index_app_skip; auto.
    + rewrite length_rev, length_app. simpl.
      replace (List.length pre + S (List.length post) - 1 - List.length post)%nat
        with (List.length pre + 0)%nat by lia.
      now rewrite alter_app_r.
    + intros b Hb. apply Hpost. now apply in_rev.
  - intros H. unfold applyUiActionToLastResult.
    rewrite find_index_none; [reflexivity|].
    intros b Hb. apply H. now apply in_rev.
Qed.

Lemma imap_same (g : nat -> message R -> message R) prev :
  (forall i m, g i m = m) -> imap g prev = prev.
Proof.
  revert g. induction prev as [|m prev IH]; intros g H; [reflexivity|].
  rewrite imap_cons, H. f_equal. apply IH. intros i m'. apply H.
Qed.

(** Mapping with a test on the index rewrites one element. *)
Lemma imap_alter (f : message R -> message R) index prev :
  imap (fun i msg => if Nat.eqb i index then f msg else msg) prev
  = alter f index prev.
Proof.
  revert index. induction prev as [|m prev IH]; intros index; [reflexivity|].
  rewrite imap_cons. destruct index as [|index]; simpl.
  - f_equal. now apply imap_same.
  - f_equal. exact (IH index).
Qed.

Lemma alter_out_of_range (f : message R -> message R) index prev :
  (List.length prev <= index)%nat -> alter f index prev = prev.
Proof.
  revert index. induction prev as [|m prev IH]; intros [|index] H;
    simpl in *; try reflexivity; try lia.
  f_equal. apply IH. lia.
Qed.

(** X23. [updateViewMode] changes the view of the message at the index and
    nothing else, keeps the number of messages, and does nothing for an
    index past the end; it commutes with [updateChartType], at the same
    index or another. *)
Theorem index_updates index mode i chartType prev :
  (forall j, updateViewMode index mode prev !! j
             = if Nat.eqb j index then with_view mode <$> prev !! j
               else prev !! j)
  /\ List.length (updateViewMode index mode prev) = List.length prev
  /\ ((List.length prev <= index)%nat -> updateViewMode index mode prev = prev)
  /\ updateViewMode index mode (updateChartType i chartType prev)
     = updateChartType i chartType (updateViewMode index mode prev).
Proof.
  unfold updateViewMode, updateChartType. rewrite !imap_alter.
  split; [|split; [|split]].
  - intros j. destruct (Nat.eqb_spec j index) as [->|Hne].
    + apply list_lookup_alter_eq.
    + apply list_lookup_alter_ne. congruence.
  - apply length_alter.
  - intros H. now apply alter_out_of_range.
  - destruct (Nat.eq_dec index i) as [->|Hne].
    + rewrite !list_alter_alter_eq. apply list_alter_ext; [|reflexivity].
      now intros [].
    + now apply list_alter_alter_ne.
Qed.

End ConversationFacts.

(** X22 on a conversation with one result, and on one with none. *)
Lemma applyUiAction_line_example :
  applyUiActionToLastResult line_action note_message
    [result_message; user_message]
  = [with_action line_action result_message; user_message]
  /\ applyUiActionToLastResult line_action note_message [user_message]
     = [user_message; note_message].
Proof.
  split.
  - refine (proj1 (applyUiAction_last_result line_action note_message
                     [result_message; user_message])
              [] result_message [user_message] eq_refl eq_refl _).
    intros m' [<-|[]]. reflexivity.
  - refine (proj2 (applyUiAction_last_result line_action note_message
                     [user_message]) _).
    intros m [<-|[]]. reflexivity.
Defined.

(** X23 on an index past the end. *)
Lemma updateViewMode_past_the_end :
  updateViewMode 5 "table" [result_message; user_message]
  = [result_message; user_message].
Proof.
  refine (proj1 (proj2 (proj2 (index_updates 5 "table" 0 "bar"
                                 [result_message; user_message]))) _).
  simpl. lia.
Defined.

(** ** CSV export *)

Lemma list_sum_cons a l : list_sum (a :: l) = (a + list_sum l)%nat.
Proof. reflexivity. Qed.

Lemma count_char_app c a b :
  count_char c (a ++ b) = (count_char c a + count_char c b)%nat.
Proof.
  induction a as [|d a IH]; rewrite ?append_nil, ?append_cons; simpl;
    [reflexivity|].
  rewrite IH. lia.
Qed.

Lemma count_text_of c d :
  count_char c (text_of d) = if Ascii.eqb d c then 1%nat else 0%nat.
Proof. unfold text_of. simpl. destruct (Ascii.eqb d c); reflexivity. Qed.

Lemma count_in_cons c a l :
  count_in c (a :: l) = (count_char c a + count_in c l)%nat.
Proof. reflexivity. Qed.

Lemma count_in_app c l l' :
  count_in c (l ++ l') = (count_in c l + count_in c l')%nat.
Proof. unfold count_in. now rewrite map_app, list_sum_app. Qed.

(** Joining adds one separator less than there are strings. *)
Lemma count_join c sep l :
  count_char c (join sep l)
  = (count_in c l + (List.length l - 1) * count_char c sep)%nat.
Proof.
  unfold count_in. induction l as [|a [|b l] IH]; [reflexivity|simpl; lia|].
  change (join sep (a :: b :: l)) with (a ++ sep ++ join sep (b :: l)).
  rewrite !count_char_app, IH. simpl. lia.
Qed.

Lemma sum_scaled k (rows : list record) :
  list_sum (map (fun row => (List.length row - 1) * k)%nat rows)
  = (list_sum (map (fun row => List.length row - 1)%nat rows) * k)%nat.
Proof.
  induction rows as [|r rows IH]; [reflexivity|].
  cbn [map]. rewrite !list_sum_cons, IH. lia.
Qed.

Section CsvFacts.
Variable numberToString : number -> string.

Local Abbreviation content := (csvContent numberToString).
Local Abbreviation line := (csv_line numberToString).
Local Abbreviation cells := (csv_cells numberToString).

Lemma count_lines c rows :
  count_in c (map line rows)
  = (count_in c (flat_map (fun row =>
                   map (fun kv => element_text numberToString (snd kv)) row) rows)
     + list_sum (map (fun row => (List.length row - 1) * count_char c (text_of comma))
                     rows))%nat.
Proof.
  induction rows as [|r rows IH]; [reflexivity|].
  cbn [map flat_map]. rewrite count_in_app, count_in_cons, IH.
  unfold csv_line. rewrite count_join, length_map, list_sum_cons. lia.
Qed.

(** X24. The export quotes and escapes nothing: each character occurs in
    the text as often as in the cells, the header names and the values, but
    for one line feed for each row and, on the header and on each row, one
    comma less than there are columns. So a cell with a comma or a line feed
    in it adds a field or a line. *)
Theorem csv_separators_only c r rows s :
  content (r :: rows) = Some s ->
  count_char c s
  = (count_in c (cells (r :: rows))
     + (if Ascii.eqb LF c then List.length (r :: rows) else 0)
     + (if Ascii.eqb comma c
        then list_sum (map (fun row => List.length row - 1) (r :: r :: rows))
        else 0))%nat.
Proof.
  unfold csvContent. intros H. apply (inj Some) in H. subst s.
  rewrite !count_char_app, !count_join, count_lines, sum_scaled.
  unfold csv_cells. rewrite count_in_app, !length_map.
  unfold keys. rewrite length_map, !count_text_of.
  match goal with |- context [map ?f (r :: r :: rows)] =>
    change (map f (r :: r :: rows)) with (f r :: map f (r :: rows)) end.
  rewrite list_sum_cons.
  match goal with |- context [list_sum ?l] => set (w := list_sum l) end.
  set (n := List.length (r :: rows)).
  assert (1 <= n)%nat by (subst n; simpl; lia).
  destruct (Ascii.eqb LF c) eqn:E1; destruct (Ascii.eqb comma c) eqn:E2.
  - apply Ascii.eqb_eq in E1, E2. subst c. discriminate E2.
  - lia.
  - lia.
  - lia.
Qed.

End CsvFacts.

(** X24 on two rows: the comma of a cell is one of four in the text, where
    two columns on three lines need three. *)
Lemma csv_example :
  csvContent blank_toString csv_rows
  = Some ("name,qty" ++ text_of LF ++ "Shoes, red," ++ text_of LF ++ "Hats,4")
  /\ count_char comma
       ("name,qty" ++ text_of LF ++ "Shoes, red," ++ text_of LF ++ "Hats,4")
     = 4%nat.
Proof.
  split; [reflexivity|].
  exact (csv_separators_only blank_toString comma
           (hd [] csv_rows) (tl csv_rows) _ eq_refl).
Defined.
